(** * Job lifecycle of the PDF-to-Word frontend

    A shallow embedding of the job-state orchestration of the frontend:
    - [App.tsx]: the view state machine ([navigateTo], [goBack]), the upload
      handler that creates a job, the inline poller [pollFile] and the
      eviction callback handed to [useAutoCleanup];
    - [hooks/useAutoCleanup.ts]: the eviction sweep [checkExpiredFiles];
    - [hooks/useFilePolling.ts]: the polling hook with its retry counter and
      in-flight flag.

    Conventions.  A JavaScript [Date] is its millisecond time value, or the
    Invalid Date; a [number] that holds a count or a percentage is an integer
    of [Z]; React state is an explicit record that every handler transforms;
    a value that a closure captured at render time is an explicit argument
    (prefix [cap_]) wherever the closure runs after an [await], since the
    state may have changed meanwhile; a handler that a click runs at once
    reads the state itself.  A call to the backend is an oracle or an event
    whose outcome the environment chooses. *)

From Stdlib Require Import ZArith List String Bool Arith Lia.
Import ListNotations.

Local Open Scope string_scope.
Local Open Scope list_scope.
Local Open Scope Z_scope.

(** ** Dates *)

(** [None] is the Invalid Date (time value NaN). *)
Definition Date := option Z.

(** [a >= b] on two dates: both are converted to their time values, and a
    comparison with NaN is false. *)
Definition date_ge (a b : Date) : bool :=
  match a, b with
  | Some x, Some y => y <=? x
  | _, _ => false
  end.

(** ** Records of [services/api.ts] and [App.tsx] *)

Module Status.
Inductive t := processing | completed | error.

Definition eqb (a b : t) : bool :=
  match a, b with
  | processing, processing | completed, completed | error, error => true
  | _, _ => false
  end.
End Status.

(** The browser's [File], as far as the handlers read it. *)
Record File := { file_name : string; file_size : Z }.

(** An element of [pages_data] ([any]). *)
Definition PageData := string.

(** [interface FileStatus] of the API client. *)
Module FileStatus.
Record t := {
  id : string;
  name : string;
  status : Status.t;
  progress : Z;
  progress_message : option string;
  upload_date : string;
  expiry_date : string;
  file_size : Z;
  word_count : Z;
  char_count : Z;
  line_count : Z;
  extracted_text : string;
  pages_data : option (list PageData);
  error : option string
}.
End FileStatus.

(** [type ProcessedFile] of [App.tsx]. *)
Module ProcessedFile.
Record t := {
  id : string;
  name : string;
  uploadDate : Date;
  expiryDate : Date;
  status : Status.t;
  extractedText : string;
  originalFile : option File;
  progress : Z;
  progress_message : option string;
  fileSize : Z;
  wordCount : Z;
  charCount : Z;
  lineCount : Z;
  pages_data : option (list PageData);
  error : option string
}.
End ProcessedFile.

(** [type AppView] *)
Inductive AppView := upload | editor | batch | stored | processing.

Definition AppView_eqb (a b : AppView) : bool :=
  match a, b with
  | upload, upload | editor, editor | batch, batch
  | stored, stored | processing, processing => true
  | _, _ => false
  end.

(** [x === s] for [x : string | null] and a string [s]. *)
Definition is_id (x : option string) (s : string) : bool :=
  match x with
  | Some y => String.eqb y s
  | None => false
  end.

(** ** A JavaScript [Set<string>]: distinct elements in insertion order *)

Definition StringSet := list string.

Definition set_has (x : string) (s : StringSet) : bool :=
  existsb (String.eqb x) s.

Definition set_add (x : string) (s : StringSet) : StringSet :=
  if set_has x s then s else s ++ [x].

Definition set_delete (x : string) (s : StringSet) : StringSet :=
  filter (fun y => negb (String.eqb y x)) s.

(** ** Toasts and timers

    The callbacks that [toast] and [setTimeout] receive are the two closures
    written in [pollFile]; they are named here and run by [runToastAction]
    and [fireTimeout] below. *)

Inductive ToastKind := toast_success | toast_error.

(** [action: { label: 'View', onClick }] *)
Inductive ToastAction := ViewFile (fileId : string).

Record Toast := {
  kind : ToastKind;
  title : string;
  description : string;
  action : option ToastAction
}.

(** The callback of the grace-delay timer, with the [apiFile] fields it
    captured. *)
Inductive TimeoutCallback := AutoNavigate (fileId fileName : string).

Record Timeout := { delay : Z; callback : TimeoutCallback }.

(** ** The state of [App] *)

Record AppState := {
  currentView : AppView;
  previousView : AppView;
  files : list ProcessedFile.t;
  currentFileId : option string;
  processingFileId : option string;
  processingFileIds : StringSet;
  toasts : list Toast;       (* toasts shown so far, oldest first *)
  timeouts : list Timeout    (* timers armed by [setTimeout], oldest first *)
}.

Definition setCurrentView (v : AppView) (st : AppState) : AppState :=
  {| currentView := v; previousView := previousView st; files := files st;
     currentFileId := currentFileId st; processingFileId := processingFileId st;
     processingFileIds := processingFileIds st; toasts := toasts st;
     timeouts := timeouts st |}.

Definition setPreviousView (v : AppView) (st : AppState) : AppState :=
  {| currentView := currentView st; previousView := v; files := files st;
     currentFileId := currentFileId st; processingFileId := processingFileId st;
     processingFileIds := processingFileIds st; toasts := toasts st;
     timeouts := timeouts st |}.

(** [setFiles((prev) => f(prev))] *)
Definition setFiles (f : list ProcessedFile.t -> list ProcessedFile.t)
    (st : AppState) : AppState :=
  {| currentView := currentView st; previousView := previousView st;
     files := f (files st);
     currentFileId := currentFileId st; processingFileId := processingFileId st;
     processingFileIds := processingFileIds st; toasts := toasts st;
     timeouts := timeouts st |}.

Definition setCurrentFileId (x : option string) (st : AppState) : AppState :=
  {| currentView := currentView st; previousView := previousView st;
     files := files st;
     currentFileId := x; processingFileId := processingFileId st;
     processingFileIds := processingFileIds st; toasts := toasts st;
     timeouts := timeouts st |}.

Definition setProcessingFileId (x : option string) (st : AppState) : AppState :=
  {| currentView := currentView st; previousView := previousView st;
     files := files st;
     currentFileId := currentFileId st; processingFileId := x;
     processingFileIds := processingFileIds st; toasts := toasts st;
     timeouts := timeouts st |}.

(** [setProcessingFileIds((prev) => f(prev))] *)
Definition setProcessingFileIds (f : StringSet -> StringSet)
    (st : AppState) : AppState :=
  {| currentView := currentView st; previousView := previousView st;
     files := files st;
     currentFileId := currentFileId st; processingFileId := processingFileId st;
     processingFileIds := f (processingFileIds st); toasts := toasts st;
     timeouts := timeouts st |}.

Definition toast (t : Toast) (st : AppState) : AppState :=
  {| currentView := currentView st; previousView := previousView st;
     files := files st;
     currentFileId := currentFileId st; processingFileId := processingFileId st;
     processingFileIds := processingFileIds st; toasts := toasts st ++ [t];
     timeouts := timeouts st |}.

Definition setTimeout (cb : TimeoutCallback) (ms : Z) (st : AppState) : AppState :=
  {| currentView := currentView st; previousView := previousView st;
     files := files st;
     currentFileId := currentFileId st; processingFileId := processingFileId st;
     processingFileIds := processingFileIds st; toasts := toasts st;
     timeouts := timeouts st ++ [{| delay := ms; callback := cb |}] |}.

(** The state of the first render. *)
Definition initialState : AppState :=
  {| currentView := upload; previousView := upload; files := [];
     currentFileId := None; processingFileId := None; processingFileIds := [];
     toasts := []; timeouts := [] |}.

(** ** Navigation *)

Definition navigateTo (view : AppView) (st : AppState) : AppState :=
  if negb (AppView_eqb (currentView st) view)
  then setCurrentView view (setPreviousView (currentView st) st)
  else st.

Definition goBack (st : AppState) : AppState :=
  let targetView :=
    if negb (AppView_eqb (previousView st) (currentView st))
    then previousView st else upload in
  setCurrentView targetView (setPreviousView upload st).

(** [navigateTo] called after an [await]: [cap_currentView] is the
    [currentView] of the render that created the closure, which need not be
    the view of the state the setters act on. *)
Definition navigateTo_closure (cap_currentView : AppView) (view : AppView)
    (st : AppState) : AppState :=
  if negb (AppView_eqb cap_currentView view)
  then setCurrentView view (setPreviousView cap_currentView st)
  else st.

(** The handlers the processing screen receives:
    [onTimeout] and [onViewStored]. *)
Definition onTimeout (st : AppState) : AppState :=
  navigateTo upload (setProcessingFileId None st).

Definition onViewStored (st : AppState) : AppState :=
  navigateTo stored (setProcessingFileId None st).

(** ** Conversion of a backend snapshot, and job creation *)

Section Backend.

(** [new Date(s)] for a date string of the backend. *)
Variable parseDate : string -> Date.

Definition convertApiFileToProcessedFile (apiFile : FileStatus.t)
    : ProcessedFile.t :=
  {| ProcessedFile.id := FileStatus.id apiFile;
     ProcessedFile.name := FileStatus.name apiFile;
     ProcessedFile.uploadDate := parseDate (FileStatus.upload_date apiFile);
     ProcessedFile.expiryDate := parseDate (FileStatus.expiry_date apiFile);
     ProcessedFile.status := FileStatus.status apiFile;
     ProcessedFile.extractedText := FileStatus.extracted_text apiFile;
     ProcessedFile.originalFile := None;
     ProcessedFile.progress := FileStatus.progress apiFile;
     ProcessedFile.progress_message := FileStatus.progress_message apiFile;
     ProcessedFile.fileSize := FileStatus.file_size apiFile;
     ProcessedFile.wordCount := FileStatus.word_count apiFile;
     ProcessedFile.charCount := FileStatus.char_count apiFile;
     ProcessedFile.lineCount := FileStatus.line_count apiFile;
     ProcessedFile.pages_data := FileStatus.pages_data apiFile;
     ProcessedFile.error := FileStatus.error apiFile |}.

(** The argument of [setFiles] in [pollFile]:
    [prev.map((f) => f.id === apiFile.id ? convert(apiFile) : f)]. *)
Definition updateFiles (apiFile : FileStatus.t)
    (prev : list ProcessedFile.t) : list ProcessedFile.t :=
  map (fun f =>
         if String.eqb (ProcessedFile.id f) (FileStatus.id apiFile)
         then convertApiFileToProcessedFile apiFile else f) prev.

(** [apiFile.error || 'Unknown error'] *)
Definition errorDescription (apiFile : FileStatus.t) : string :=
  match FileStatus.error apiFile with
  | Some EmptyString | None => "Unknown error"
  | Some s => s
  end.

(** The body of [pollFile] after [api.getFileStatus] resolved with
    [apiFile].  [cap_processingFileId] and [cap_currentView] are the values
    of the render whose effect created this [pollFile]. *)
Definition pollFile_resolved (cap_processingFileId : option string)
    (cap_currentView : AppView) (apiFile : FileStatus.t)
    (st : AppState) : AppState :=
  let st := setFiles (updateFiles apiFile) st in
  if Status.eqb (FileStatus.status apiFile) Status.completed
     || Status.eqb (FileStatus.status apiFile) Status.error
  then
    let st := setProcessingFileIds (set_delete (FileStatus.id apiFile)) st in
    if Status.eqb (FileStatus.status apiFile) Status.completed then
      if is_id cap_processingFileId (FileStatus.id apiFile)
         && AppView_eqb cap_currentView processing
      then
        setTimeout
          (AutoNavigate (FileStatus.id apiFile) (FileStatus.name apiFile))
          2000 st
      else
        toast {| kind := toast_success;
                 title := ("Processing complete: "
                             ++ FileStatus.name apiFile)%string;
                 description := "File is ready for editing";
                 action := Some (ViewFile (FileStatus.id apiFile)) |} st
    else
      let st := toast {| kind := toast_error;
                         title := "Processing failed";
                         description := errorDescription apiFile;
                         action := None |} st in
      if is_id cap_processingFileId (FileStatus.id apiFile)
      then setProcessingFileId None st
      else st
  else st.

End Backend.

(** The [catch] of [pollFile]: the job leaves the polled set. *)
Definition pollFile_rejected (fileId : string) (st : AppState) : AppState :=
  setProcessingFileIds (set_delete fileId) st.

(** The timer callback of [pollFile], run when the grace delay has passed. *)
Definition fireTimeout (cb : TimeoutCallback) (st : AppState) : AppState :=
  match cb with
  | AutoNavigate fileId fileName =>
      let st := setCurrentFileId (Some fileId) st in
      let st := setCurrentView editor st in
      toast {| kind := toast_success;
               title := ("Processing complete: " ++ fileName)%string;
               description := "All pages processed successfully!";
               action := None |} st
  end.

(** [onClick] of the toast's [View] button. *)
Definition runToastAction (a : ToastAction) (st : AppState) : AppState :=
  match a with
  | ViewFile fileId => setCurrentView editor (setCurrentFileId (Some fileId) st)
  end.

(** [initialFile] of [handleFilesUploaded]: [uploaded] is the time value of
    [new Date()], [now] the result of [Date.now()]. *)
Definition initialFile (uploaded now : Z) (file_id : string) (f : File)
    : ProcessedFile.t :=
  {| ProcessedFile.id := file_id;
     ProcessedFile.name := file_name f;
     ProcessedFile.uploadDate := Some uploaded;
     ProcessedFile.expiryDate := Some (now + 2 * 24 * 60 * 60 * 1000);
     ProcessedFile.status := Status.processing;
     ProcessedFile.extractedText := EmptyString;
     ProcessedFile.originalFile := Some f;
     ProcessedFile.progress := 0;
     ProcessedFile.progress_message := Some "Starting...";
     ProcessedFile.fileSize := file_size f;
     ProcessedFile.wordCount := 0;
     ProcessedFile.charCount := 0;
     ProcessedFile.lineCount := 0;
     ProcessedFile.pages_data := Some [];
     ProcessedFile.error := None (* absent *) |}.

(** The single-upload branch of [handleFilesUploaded], after
    [api.uploadFile] resolved with [file_id].  The [navigateTo] it calls is
    the one of the render in which the upload was started, with that
    render's [currentView] ([cap_currentView]); the page that starts an
    upload is the upload page. *)
Definition handleFilesUploaded_single (cap_currentView : AppView)
    (uploaded now : Z) (file_id : string)
    (f : File) (st : AppState) : AppState :=
  let st := toast {| kind := toast_success;
                     title := "File uploaded successfully";
                     description := "Starting text extraction...";
                     action := None |} st in
  let st := setProcessingFileIds (set_add file_id) st in
  let st := setFiles (fun prev => prev ++ [initialFile uploaded now file_id f]) st in
  let st := setCurrentFileId (Some file_id) st in
  let st := setProcessingFileId (Some file_id) st in
  navigateTo_closure cap_currentView processing st.

(** ** The inline poller of [App.tsx] and its pending requests

    [pollFile] has no state of its own: every call issues
    [api.getFileStatus(fileId)].  [inFlight] lists the requests that were
    issued and have not settled yet, oldest first. *)

Record Runtime := { app : AppState; inFlight : list string }.

(** A call of [pollFile] up to its [await]. *)
Definition pollFile_begin (fileId : string) (rt : Runtime) : Runtime :=
  {| app := app rt; inFlight := inFlight rt ++ [fileId] |}.

(** The polling effect: for every id of [processingFileIds], an immediate
    [pollFile()] (and an interval of 2000 ms, see [intervalTick]). *)
Definition pollingEffect (rt : Runtime) : Runtime :=
  fold_left (fun rt fileId => pollFile_begin fileId rt)
            (processingFileIds (app rt)) rt.

(** The interval armed for [fileId] fires.  The effect's cleanup clears the
    intervals whenever [processingFileIds] changes, so an interval is live
    exactly for the ids of the current set. *)
Definition intervalTick (fileId : string) (rt : Runtime) : Runtime :=
  if set_has fileId (processingFileIds (app rt))
  then pollFile_begin fileId rt
  else rt.

(** Number of requests for [fileId] that are pending. *)
Definition pendingFor (fileId : string) (rt : Runtime) : nat :=
  List.length (filter (String.eqb fileId) (inFlight rt)).

(** A request of [pollFile] that has not settled, with the values the
    closure of that [pollFile] holds: those of the render whose effect
    created it. *)
Record PendingPoll := {
  poll_fileId : string;
  poll_processingFileId : option string;
  poll_currentView : AppView
}.

(** [pollFile()] is called by the effect of the render whose state is
    [st]. *)
Definition pollFile_issue (st : AppState) (fileId : string) : PendingPoll :=
  {| poll_fileId := fileId; poll_processingFileId := processingFileId st;
     poll_currentView := currentView st |}.

(** The request settles on the state [st] of that moment: with the job's
    snapshot ([Some apiFile]) or with a rejection ([None]).  The body that
    runs is the one of the closure that sent the request. *)
Definition pollFile_settle (parseDate : string -> Date) (rq : PendingPoll)
    (fetched : option FileStatus.t) (st : AppState) : AppState :=
  match fetched with
  | Some apiFile =>
      pollFile_resolved parseDate (poll_processingFileId rq)
                        (poll_currentView rq) apiFile st
  | None => pollFile_rejected (poll_fileId rq) st
  end.

(** ** [useAutoCleanup] *)

Section UseAutoCleanup.

Context {S : Type}.

(** [api.deleteFile(id)] during one sweep: [true] when the promise
    resolves, [false] when it rejects. *)
Variable deleteFile : string -> bool.

Variable onFileDeleted : string -> S -> S.

(** [now >= expiryDate], with [now = new Date()]. *)
Definition isExpired (now : Z) (file : ProcessedFile.t) : bool :=
  date_ge (Some now) (ProcessedFile.expiryDate file).

(** The loop of [checkExpiredFiles] over the [files] the effect captured. *)
Fixpoint checkExpiredFiles (now : Z) (files : list ProcessedFile.t)
    (st : S) : S :=
  match files with
  | [] => st
  | file :: rest =>
      let st :=
        if isExpired now file then
          if deleteFile (ProcessedFile.id file)
          then onFileDeleted (ProcessedFile.id file) st
          else st  (* catch: console.error *)
        else st in
      checkExpiredFiles now rest st
  end.

End UseAutoCleanup.

(** The callback [App] hands to [useAutoCleanup]; [cap_currentFileId] is the
    [currentFileId] of the render that created it. *)
Definition onFileDeleted (cap_currentFileId : option string)
    (fileId : string) (st : AppState) : AppState :=
  let st :=
    setFiles (filter (fun f => negb (String.eqb (ProcessedFile.id f) fileId)))
             st in
  if is_id cap_currentFileId fileId
  then setCurrentView upload (setCurrentFileId None st)
  else st.

(** One sweep of [App]'s [useAutoCleanup(files, ...)] at time [now], run
    from its start to its end with nothing else happening in between.  The
    list it walks is the one of the render that started it, here [files st];
    [cap_currentFileId] is the [currentFileId] its callback holds. *)
Definition autoCleanup (cap_currentFileId : option string)
    (deleteFile : string -> bool) (now : Z) (st : AppState) : AppState :=
  checkExpiredFiles deleteFile (onFileDeleted cap_currentFileId)
                    now (files st) st.

(** *** The sweep, one awaited delete at a time

    [checkExpiredFiles] is suspended at every [await api.deleteFile], and
    handlers of the user run while it waits: the state its callback acts on
    is the state at the time the delete settles, while the values the sweep
    holds are those of the render that started it. *)

(** A sweep in progress: its [now], the [currentFileId] of its callback's
    closure, and the records of its [files] it has not passed yet. *)
Record Sweep := {
  sweep_now : Z;
  sweep_currentFileId : option string;
  sweep_files : list ProcessedFile.t
}.

(** [checkExpiredFiles()] is called by the effect of the render whose state
    is [st]. *)
Definition sweep_begin (now : Z) (st : AppState) : Sweep :=
  {| sweep_now := now; sweep_currentFileId := currentFileId st;
     sweep_files := files st |}.

(** The loop up to its next [await]: records that have not expired are
    passed; the first expired one, if any, is the one whose delete is
    awaited. *)
Fixpoint sweep_awaits (now : Z) (l : list ProcessedFile.t)
    : list ProcessedFile.t :=
  match l with
  | [] => []
  | file :: rest =>
      if isExpired now file then file :: rest else sweep_awaits now rest
  end.

(** The awaited delete settles ([resolved] tells how) on the state [st] of
    that moment, and the loop goes on to its next [await]. *)
Definition sweep_resume (resolved : bool) (sw : Sweep) (st : AppState)
    : Sweep * AppState :=
  match sweep_awaits (sweep_now sw) (sweep_files sw) with
  | [] =>
      ({| sweep_now := sweep_now sw;
          sweep_currentFileId := sweep_currentFileId sw;
          sweep_files := [] |}, st)
  | file :: rest =>
      ({| sweep_now := sweep_now sw;
          sweep_currentFileId := sweep_currentFileId sw;
          sweep_files := rest |},
       if resolved
       then onFileDeleted (sweep_currentFileId sw) (ProcessedFile.id file) st
       else st)
  end.

(** ** [useFilePolling] *)

(** What a [catch] receives; only its message is ever read. *)
Definition Error := string.

(** How a call ends: it returns a value or throws (for a promise: it
    resolves or rejects). *)
Inductive Completion (A : Type) :=
| Returned (a : A)
| Thrown (e : Error).

Arguments Returned {A} a.
Arguments Thrown {A} e.

Definition maxRetries : nat := 3.

(** The two refs of the hook and the [retryCount] of its effect. *)
Record PollState := {
  intervalRef : option nat;   (* the timer handle, or null *)
  isPollingRef : bool;
  retryCount : nat
}.

Definition setIntervalRef (x : option nat) (ps : PollState) : PollState :=
  {| intervalRef := x; isPollingRef := isPollingRef ps;
     retryCount := retryCount ps |}.

Definition setIsPollingRef (b : bool) (ps : PollState) : PollState :=
  {| intervalRef := intervalRef ps; isPollingRef := b;
     retryCount := retryCount ps |}.

Definition setRetryCount (n : nat) (ps : PollState) : PollState :=
  {| intervalRef := intervalRef ps; isPollingRef := isPollingRef ps;
     retryCount := n |}.

(** [if (intervalRef.current) { clearInterval(intervalRef.current);
    intervalRef.current = null; }] *)
Definition stopInterval (ps : PollState) : PollState :=
  match intervalRef ps with
  | Some _ => setIntervalRef None ps
  | None => ps
  end.

Definition isTerminal (s : Status.t) : bool :=
  Status.eqb s Status.completed || Status.eqb s Status.error.

Section UseFilePolling.

(** Whatever the caller's callbacks act on. *)
Context {Host : Type}.

(** A callback changes the caller's state and returns, or throws. *)
Definition Callback (A : Type) := A -> Host -> Host * Completion unit.

Variable onUpdate : Callback FileStatus.t.
Variable onComplete : option (Callback FileStatus.t).
Variable onError : option (Callback Error).

(** The [try] block once [api.getFileStatus] has resolved with [file]. *)
Definition try_block (file : FileStatus.t) (ps : PollState) (h : Host)
    : PollState * Host * Completion unit :=
  match onUpdate file h with
  | (h, Thrown e) => (ps, h, Thrown e)
  | (h, Returned _) =>
      let ps := setRetryCount 0 ps in
      if isTerminal (FileStatus.status file) then
        let ps := stopInterval ps in
        match Status.eqb (FileStatus.status file) Status.completed,
              onComplete with
        | true, Some oc =>
            let '(h, c) := oc file h in (ps, h, c)
        | _, _ => (ps, h, Returned tt)
        end
      else (ps, h, Returned tt)
  end.

(** The [catch] block. *)
Definition catch_block (e : Error) (ps : PollState) (h : Host)
    : PollState * Host * Completion unit :=
  let ps := setRetryCount (S (retryCount ps)) ps in
  if (maxRetries <=? retryCount ps)%nat then
    let ps := stopInterval ps in
    match onError with
    | Some oe => let '(h, c) := oe e h in (ps, h, c)
    | None => (ps, h, Returned tt)
    end
  else (ps, h, Returned tt).

(** The [finally] block. *)
Definition finally_block (ps : PollState) : PollState :=
  setIsPollingRef false ps.

(** [pollFileStatus] from the point where the awaited request settles with
    [fetched] to its end: try, catch, finally.  The completion is that of
    the promise [pollFileStatus] returned. *)
Definition pollFileStatus_settled (fetched : Completion FileStatus.t)
    (ps : PollState) (h : Host) : PollState * Host * Completion unit :=
  let '(ps, h, c) :=
    match fetched with
    | Returned file =>
        match try_block file ps h with
        | (ps, h, Thrown e) => catch_block e ps h
        | r => r
        end
    | Thrown e => catch_block e ps h
    end in
  (finally_block ps, h, c).

(** The hook at run time: its variables, the caller's state, the requests
    issued and not yet settled, the number of requests issued so far, and
    the errors that escaped [pollFileStatus]. *)
Record Poller := {
  refs : PollState;
  host : Host;
  pending : nat;
  attempts : nat;
  unhandled : list Error
}.

(** [pollFileStatus] up to its [await]: the guard on the in-flight flag,
    then the request. *)
Definition pollFileStatus_begin (p : Poller) : Poller :=
  if isPollingRef (refs p) then p
  else {| refs := setIsPollingRef true (refs p); host := host p;
          pending := S (pending p); attempts := S (attempts p);
          unhandled := unhandled p |}.

(** The request settles and [pollFileStatus] runs to its end. *)
Definition pollFileStatus_resume (fetched : Completion FileStatus.t)
    (p : Poller) : Poller :=
  match pending p with
  | O => p
  | S n =>
      let '(ps, h, c) := pollFileStatus_settled fetched (refs p) (host p) in
      {| refs := ps; host := h; pending := n; attempts := attempts p;
         unhandled := match c with
                      | Thrown e => unhandled p ++ [e]
                      | Returned _ => unhandled p
                      end |}
  end.

(** The effect body for the first render: the refs hold their initial
    values, [timer] is the handle [setInterval] returns. *)
Definition mount (fileId : string) (enabled : bool) (timer : nat)
    (h : Host) : Poller :=
  let p := {| refs := {| intervalRef := None; isPollingRef := false;
                         retryCount := 0 |};
              host := h; pending := 0; attempts := 0; unhandled := [] |} in
  if negb enabled || String.eqb fileId EmptyString then p
  else
    let p := pollFileStatus_begin p in
    {| refs := setIntervalRef (Some timer) (refs p); host := host p;
       pending := pending p; attempts := attempts p;
       unhandled := unhandled p |}.

(** The effect's cleanup. *)
Definition cleanup (p : Poller) : Poller :=
  {| refs := stopInterval (refs p); host := host p; pending := pending p;
     attempts := attempts p; unhandled := unhandled p |}.

(** What can happen to a mounted hook. *)
Inductive Event :=
| Tick                                      (* the interval fires *)
| Settled (fetched : Completion FileStatus.t) (* the request settles *)
| Cleanup.                                  (* the effect is torn down *)

(** An interval fires only while it is armed, and [intervalRef] holds the
    handle of the one interval of this effect. *)
Definition step (p : Poller) (ev : Event) : Poller :=
  match ev with
  | Tick =>
      match intervalRef (refs p) with
      | Some _ => pollFileStatus_begin p
      | None => p
      end
  | Settled fetched => pollFileStatus_resume fetched p
  | Cleanup => cleanup p
  end.

Definition run (evs : list Event) (p : Poller) : Poller :=
  fold_left step evs p.

End UseFilePolling.

Arguments Poller Host : clear implicits.

(** ** Vocabulary of the statements *)

(** The sweep evicts the record [g]: it is expired and its backend delete
    resolves. *)
Definition hits (deleteFile : string -> bool) (now : Z)
    (g : ProcessedFile.t) : bool :=
  isExpired now g && deleteFile (ProcessedFile.id g).

(** [evicts deleteFile now l x]: the sweep over [l] evicts a record whose id
    is [x]. *)
Definition evicts (deleteFile : string -> bool) (now : Z)
    (l : list ProcessedFile.t) (x : string) : bool :=
  existsb (fun g => hits deleteFile now g
                    && String.eqb x (ProcessedFile.id g)) l.

Arguments evicts : simpl never.

Definition evictsBound (deleteFile : string -> bool) (now : Z)
    (l : list ProcessedFile.t) (x : option string) : bool :=
  match x with
  | Some c => evicts deleteFile now l c
  | None => false
  end.

(** The toast [pollFile] shows when a job completes and the view is not
    advanced. *)
Definition readyToast (apiFile : FileStatus.t) : Toast :=
  {| kind := toast_success;
     title := ("Processing complete: " ++ FileStatus.name apiFile)%string;
     description := "File is ready for editing";
     action := Some (ViewFile (FileStatus.id apiFile)) |}.

(** The parts of what [pollFileStatus_settled] returns. *)
Definition refs_of {Host : Type} (r : PollState * Host * Completion unit)
    : PollState := fst (fst r).

Definition host_of {Host : Type} (r : PollState * Host * Completion unit)
    : Host := snd (fst r).

Definition completion_of {Host : Type}
    (r : PollState * Host * Completion unit) : Completion unit := snd r.

(** The in-flight flag tells whether a request is pending. *)
Definition flag_counts {Host : Type} (p : Poller Host) : Prop :=
  pending p = if isPollingRef (refs p) then 1%nat else 0%nat.

(** ** A running example: one upload from the first render *)

Definition a_pdf : File := {| file_name := "a.pdf"; file_size := 1024 |}.

(** The job the upload at time 0 creates for the id [J]. *)
Definition job_J : ProcessedFile.t := initialFile 0 0 "J" a_pdf.

(** The state after that upload. *)
Definition uploaded_J : AppState :=
  handleFilesUploaded_single upload 0 0 "J" a_pdf initialState.

Definition always (b : bool) (fileId : string) : bool := b.

(** A snapshot of the job [J] as the backend may return it. *)
Definition snapshot_J (s : Status.t) (pr : Z) (expiry : string)
    : FileStatus.t :=
  {| FileStatus.id := "J"; FileStatus.name := "a.pdf";
     FileStatus.status := s; FileStatus.progress := pr;
     FileStatus.progress_message := Some "Processing pages";
     FileStatus.upload_date := "1970-01-01T00:00:00.000Z";
     FileStatus.expiry_date := expiry;
     FileStatus.file_size := 1024; FileStatus.word_count := 0;
     FileStatus.char_count := 0; FileStatus.line_count := 0;
     FileStatus.extracted_text := EmptyString;
     FileStatus.pages_data := None; FileStatus.error := None |}.

(** [new Date(s)] on the date strings of the examples. *)
Definition parseDate_ex (s : string) : Date :=
  if String.eqb s "1970-01-01T00:00:00.000Z" then Some 0
  else if String.eqb s "1970-01-03T00:00:00.000Z" then Some 172800000
  else if String.eqb s "1970-01-04T00:00:00.000Z" then Some 259200000
  else None.

(** An [onUpdate] that writes the snapshot into a list of jobs the way
    [pollFile] does. *)
Definition registryUpdate : @Callback (list ProcessedFile.t) FileStatus.t :=
  fun file reg => (updateFiles parseDate_ex file reg, Returned tt).

(** * Properties *)

(** ** Equality tests *)

Lemma AppView_eqb_eq (a b : AppView) : AppView_eqb a b = true <-> a = b.
Proof. destruct a, b; simpl; split; intro H; congruence. Qed.

Lemma AppView_eqb_refl (a : AppView) : AppView_eqb a a = true.
Proof. now apply AppView_eqb_eq. Qed.

Lemma Status_eqb_eq (a b : Status.t) : Status.eqb a b = true <-> a = b.
Proof. destruct a, b; simpl; split; intro H; congruence. Qed.

Lemma is_id_true (x : option string) (s : string) :
  is_id x s = true <-> x = Some s.
Proof.
  destruct x as [y|]; simpl.
  - rewrite String.eqb_eq. split; congruence.
  - split; discriminate.
Qed.

Lemma date_ge_true (now : Z) (d : Date) :
  date_ge (Some now) d = true <-> exists e, d = Some e /\ e <= now.
Proof.
  destruct d as [e|]; simpl.
  - rewrite Z.leb_le. split.
    + intro H. now exists e.
    + intros [e' [E H]]. now inversion E; subst.
  - split; [discriminate | intros [e [E _]]; discriminate].
Qed.

(** ** Navigation *)

(** X3: a navigation to another view remembers the view it left, and
    [goBack] returns there. *)
Lemma goBack_navigateTo (view : AppView) (st : AppState) :
  currentView st <> view ->
  currentView (navigateTo view st) = view
  /\ previousView (navigateTo view st) = currentView st
  /\ currentView (goBack (navigateTo view st)) = currentView st.
Proof.
  intro Hne. unfold goBack, navigateTo.
  destruct (AppView_eqb (currentView st) view) eqn:E.
  - apply AppView_eqb_eq in E. contradiction.
  - simpl. rewrite E. simpl. auto.
Qed.

(** C8: [goBack] goes to [previousView] when it differs from [currentView]
    and to [upload] otherwise; in both cases [previousView] becomes [upload]
    and nothing else changes; and once a [goBack] has landed on [upload], a
    second [goBack] changes nothing. *)
Theorem goBack_spec (st : AppState) :
  (previousView st <> currentView st ->
     currentView (goBack st) = previousView st)
  /\ (previousView st = currentView st -> currentView (goBack st) = upload)
  /\ previousView (goBack st) = upload
  /\ goBack st = setCurrentView (currentView (goBack st))
                   (setPreviousView upload st)
  /\ (currentView (goBack st) = upload -> goBack (goBack st) = goBack st).
Proof.
  unfold goBack.
  destruct (AppView_eqb (previousView st) (currentView st)) eqn:E; simpl.
  - apply AppView_eqb_eq in E. repeat split; auto; congruence.
  - assert (previousView st <> currentView st) as Hne.
    { intro H. apply AppView_eqb_eq in H. congruence. }
    repeat split; auto; try congruence.
    intro H. rewrite H. reflexivity.
Qed.

(** Only one level of history is kept: a second navigation overwrites the
    view to go back to, and the second [goBack] falls back to [upload]. *)
Example history_is_one_slot :
  let st := navigateTo editor (navigateTo stored initialState) in
  (currentView st, previousView st) = (editor, stored)
  /\ (currentView (goBack st), previousView (goBack st)) = (stored, upload)
  /\ (currentView (goBack (goBack st)), previousView (goBack (goBack st)))
     = (upload, upload)
  /\ goBack (goBack (goBack st)) = goBack (goBack st).
Proof. cbv zeta. repeat split. Qed.

(** ** The eviction sweep *)

Lemma filter_filter {A : Type} (p q : A -> bool) (l : list A) :
  filter p (filter q l) = filter (fun x => q x && p x) l.
Proof.
  induction l as [|a l IH]; simpl; [reflexivity|].
  destruct (q a); simpl; [destruct (p a)|]; now rewrite IH.
Qed.

Lemma filter_all {A : Type} (l : list A) : filter (fun _ => true) l = l.
Proof. induction l as [|a l IH]; simpl; congruence. Qed.

Lemma evicts_cons deleteFile now g l x :
  evicts deleteFile now (g :: l) x =
  hits deleteFile now g && String.eqb x (ProcessedFile.id g)
  || evicts deleteFile now l x.
Proof. reflexivity. Qed.

Lemma checkExpiredFiles_cons {S : Type} deleteFile
    (cb : string -> S -> S) now g l st :
  checkExpiredFiles deleteFile cb now (g :: l) st =
  checkExpiredFiles deleteFile cb now l
    (if hits deleteFile now g then cb (ProcessedFile.id g) st else st).
Proof.
  simpl. unfold hits.
  now destruct (isExpired now g), (deleteFile (ProcessedFile.id g)).
Qed.

Lemma evicts_true deleteFile now l x :
  evicts deleteFile now l x = true <->
  exists g, In g l /\ ProcessedFile.id g = x
            /\ isExpired now g = true /\ deleteFile x = true.
Proof.
  unfold evicts, hits. rewrite existsb_exists. split.
  - intros [g [Hin H]]. apply andb_prop in H as [H E].
    apply andb_prop in H as [He Hd]. apply String.eqb_eq in E. subst x.
    now exists g.
  - intros [g [Hin [E [He Hd]]]]. exists g. split; [assumption|].
    subst x. now rewrite He, Hd, String.eqb_refl.
Qed.

(** What one sweep does to the state of [App], field by field. *)
Lemma checkExpiredFiles_app deleteFile now cap l st :
  let st' := checkExpiredFiles deleteFile (onFileDeleted cap) now l st in
  files st' =
    filter (fun f => negb (evicts deleteFile now l (ProcessedFile.id f)))
           (files st)
  /\ currentFileId st' =
       (if evictsBound deleteFile now l cap then None else currentFileId st)
  /\ currentView st' =
       (if evictsBound deleteFile now l cap then upload else currentView st)
  /\ previousView st' = previousView st
  /\ processingFileId st' = processingFileId st
  /\ processingFileIds st' = processingFileIds st
  /\ toasts st' = toasts st
  /\ timeouts st' = timeouts st.
Proof.
  cbv zeta. revert st. induction l as [|g l IH]; intro st.
  - simpl. rewrite filter_all. repeat split; now destruct cap.
  - rewrite checkExpiredFiles_cons.
    destruct (IH (if hits deleteFile now g
                  then onFileDeleted cap (ProcessedFile.id g) st else st))
      as (Hf & Hc & Hv & Hp & Hpi & Hps & Ht & Hto).
    rewrite Hf, Hc, Hv, Hp, Hpi, Hps, Ht, Hto.
    clear IH Hf Hc Hv Hp Hpi Hps Ht Hto.
    assert (evictsBound deleteFile now (g :: l) cap =
            hits deleteFile now g && is_id cap (ProcessedFile.id g)
            || evictsBound deleteFile now l cap) as Hb.
    { destruct cap as [c|]; simpl; [apply evicts_cons|].
      now rewrite andb_false_r. }
    rewrite Hb.
    destruct (hits deleteFile now g) eqn:Hh; simpl.
    + unfold onFileDeleted.
      destruct (is_id cap (ProcessedFile.id g)); simpl;
        (repeat split;
         [ rewrite filter_filter; apply filter_ext; intro f;
           now rewrite evicts_cons, Hh, negb_orb
         | try reflexivity; now destruct (evictsBound deleteFile now l cap) .. ]).
    + repeat split. apply filter_ext; intro f. now rewrite evicts_cons, Hh.
Qed.

Lemma NoDup_id_eq (l : list ProcessedFile.t) (f g : ProcessedFile.t) :
  NoDup (map ProcessedFile.id l) -> In f l -> In g l ->
  ProcessedFile.id f = ProcessedFile.id g -> f = g.
Proof.
  induction l as [|a l IH]; simpl; [contradiction|].
  intros Hnd Hf Hg E. inversion Hnd as [|x xs Hnin Hnd']; subst.
  destruct Hf as [Hf|Hf], Hg as [Hg|Hg]; subst.
  - reflexivity.
  - exfalso. apply Hnin. rewrite E. now apply in_map.
  - exfalso. apply Hnin. rewrite <- E. now apply in_map.
  - now apply IH.
Qed.

(** Membership in the tracked list after a sweep. *)
Lemma autoCleanup_In cap deleteFile now st f :
  In f (files (autoCleanup cap deleteFile now st)) <->
  In f (files st)
  /\ evicts deleteFile now (files st) (ProcessedFile.id f) = false.
Proof.
  unfold autoCleanup.
  destruct (checkExpiredFiles_app deleteFile now cap
              (files st) st) as (Hf & _).
  rewrite Hf, filter_In, negb_true_iff. reflexivity.
Qed.

(** With one record per id, the sweep evicts a tracked record exactly when
    that very record is expired and its delete resolves. *)
Lemma evicts_own deleteFile now l f :
  NoDup (map ProcessedFile.id l) -> In f l ->
  evicts deleteFile now l (ProcessedFile.id f) = hits deleteFile now f.
Proof.
  intros Hnd Hin. unfold hits.
  destruct (evicts deleteFile now l (ProcessedFile.id f)) eqn:E.
  - apply evicts_true in E as (g & Hg & Eid & He & Hd).
    assert (g = f) by (eapply NoDup_id_eq; eauto). subst g.
    now rewrite He, Hd.
  - destruct (isExpired now f && deleteFile (ProcessedFile.id f)) eqn:H;
      [|reflexivity].
    apply andb_prop in H as [He Hd].
    assert (evicts deleteFile now l (ProcessedFile.id f) = true) as E'.
    { apply evicts_true. now exists f. }
    congruence.
Qed.

(** With one record per id, a tracked record survives the sweep exactly
    when the sweep does not evict that record. *)
Lemma autoCleanup_keeps cap deleteFile now st f :
  NoDup (map ProcessedFile.id (files st)) ->
  In f (files st) ->
  (In f (files (autoCleanup cap deleteFile now st)) <->
   hits deleteFile now f = false).
Proof.
  intros Hnd Hin. rewrite autoCleanup_In, (evicts_own _ _ _ _ Hnd Hin).
  tauto.
Qed.

Lemma hits_true deleteFile now f :
  hits deleteFile now f = true <->
  (exists e, ProcessedFile.expiryDate f = Some e /\ e <= now)
  /\ deleteFile (ProcessedFile.id f) = true.
Proof.
  unfold hits, isExpired. now rewrite andb_true_iff, date_ge_true.
Qed.

(** C1: with one record per id, a sweep at time [now] removes a tracked job
    if and only if its expiry timestamp is at or before [now] and the
    backend delete succeeded; in particular a job whose delete throws stays
    in the list for the next sweep. *)
Theorem sweep_removes_iff cap deleteFile now st f :
  NoDup (map ProcessedFile.id (files st)) ->
  In f (files st) ->
  (~ In f (files (autoCleanup cap deleteFile now st)) <->
     (exists e, ProcessedFile.expiryDate f = Some e /\ e <= now)
     /\ deleteFile (ProcessedFile.id f) = true)
  /\ (deleteFile (ProcessedFile.id f) = false ->
        In f (files (autoCleanup cap deleteFile now st))).
Proof.
  intros Hnd Hin.
  rewrite (autoCleanup_keeps cap deleteFile now st f Hnd Hin), <- hits_true.
  split.
  - destruct (hits deleteFile now f); split; congruence.
  - intro Hd. unfold hits. now rewrite Hd, andb_false_r.
Qed.

(** The callback of the sweep, called for the job bound to the view. *)
Lemma onFileDeleted_bound fileId st :
  let st' := onFileDeleted (Some fileId) fileId st in
  currentView st' = upload
  /\ currentFileId st' = None
  /\ forall g, In g (files st') -> ProcessedFile.id g <> fileId.
Proof.
  unfold onFileDeleted. simpl. rewrite String.eqb_refl. simpl.
  repeat split. intros g Hg E. apply filter_In in Hg as [_ Hg].
  rewrite E, String.eqb_refl in Hg. discriminate.
Qed.

(** A sweep that runs with nothing in between and whose callback holds
    [fileId] as the bound job: when it evicts that job, the state after it
    has [currentView = upload] and [currentFileId = null], and no record
    with that id is left in the list.  ([processingFileId] is not touched
    by the sweep.)  Nothing is required of [currentFileId st]: the callback
    compares with the value of its closure. *)
Lemma eviction_with_closure_on_job cap deleteFile now st fileId :
  cap = Some fileId ->
  (exists f, In f (files st) /\ ProcessedFile.id f = fileId
             /\ isExpired now f = true /\ deleteFile fileId = true) ->
  let st' := autoCleanup cap deleteFile now st in
  currentView st' = upload
  /\ currentFileId st' = None
  /\ (forall g, In g (files st') -> ProcessedFile.id g <> fileId)
  /\ processingFileId st' = processingFileId st.
Proof.
  intros Hcap Hex st'. apply evicts_true in Hex.
  destruct (checkExpiredFiles_app deleteFile now cap
              (files st) st) as (Hf & Hc & Hv & _ & Hp & _).
  fold (autoCleanup cap deleteFile now st) in Hf, Hc, Hv, Hp.
  fold st' in Hf, Hc, Hv, Hp.
  rewrite Hcap in Hc, Hv. simpl in Hc, Hv. rewrite Hex in Hc, Hv.
  repeat split; try assumption.
  intros g Hg E. rewrite Hf in Hg. apply filter_In in Hg as [_ Hg].
  rewrite E, Hex in Hg. discriminate.
Qed.

(** The callback of a sweep whose closure does not hold [fileId]: the
    records with that id are removed, and the view and the bound job are
    left as they are, whatever they are by then. *)
Lemma onFileDeleted_other cap fileId st :
  is_id cap fileId = false ->
  let st' := onFileDeleted cap fileId st in
  currentView st' = currentView st
  /\ currentFileId st' = currentFileId st
  /\ files st'
     = filter (fun f => negb (String.eqb (ProcessedFile.id f) fileId))
              (files st).
Proof. intro H. unfold onFileDeleted. rewrite H. now repeat split. Qed.

(** *** The sweep and its steps *)

Lemma sweep_resume_awaited resolved sw st file rest :
  sweep_awaits (sweep_now sw) (sweep_files sw) = file :: rest ->
  sweep_resume resolved sw st =
  ({| sweep_now := sweep_now sw;
      sweep_currentFileId := sweep_currentFileId sw;
      sweep_files := rest |},
   if resolved
   then onFileDeleted (sweep_currentFileId sw) (ProcessedFile.id file) st
   else st).
Proof. intro H. unfold sweep_resume. now rewrite H. Qed.

(** The record whose delete is awaited is the first expired one of the
    records not passed yet. *)
Lemma sweep_awaits_first now l file rest :
  sweep_awaits now l = file :: rest ->
  isExpired now file = true
  /\ exists passed, l = passed ++ file :: rest
                    /\ forallb (fun f => negb (isExpired now f)) passed = true.
Proof.
  induction l as [|g l IH]; simpl; [discriminate|].
  destruct (isExpired now g) eqn:E.
  - intro H. inversion H; subst. split; [assumption|]. now exists [].
  - intro H. destruct (IH H) as [He [passed [El Hp]]]. split; [assumption|].
    exists (g :: passed). simpl. rewrite E, Hp, El. now split.
Qed.

(** The sweep run at once is the sweep resumed at each of its awaits with
    the answer of the backend and nothing in between. *)
Lemma checkExpiredFiles_sweep_resume deleteFile sw st :
  checkExpiredFiles deleteFile (onFileDeleted (sweep_currentFileId sw))
                    (sweep_now sw) (sweep_files sw) st =
  match sweep_awaits (sweep_now sw) (sweep_files sw) with
  | [] => st
  | file :: _ =>
      let next := sweep_resume (deleteFile (ProcessedFile.id file)) sw st in
      checkExpiredFiles deleteFile
                        (onFileDeleted (sweep_currentFileId (fst next)))
                        (sweep_now (fst next)) (sweep_files (fst next))
                        (snd next)
  end.
Proof.
  destruct sw as [now cap l]. unfold sweep_resume. simpl.
  induction l as [|g l IH]; simpl; [reflexivity|].
  destruct (isExpired now g) eqn:E; simpl.
  - reflexivity.
  - rewrite IH. now destruct (sweep_awaits now l).
Qed.

(** The theorem at the job [J], swept at the very millisecond it expires. *)
Lemma sweep_removes_iff_witness :
  (~ In job_J (files (autoCleanup (Some "J") (always true) 172800000 uploaded_J)) <->
     (exists e, ProcessedFile.expiryDate job_J = Some e /\ e <= 172800000)
     /\ always true (ProcessedFile.id job_J) = true)
  /\ (always true (ProcessedFile.id job_J) = false ->
        In job_J (files (autoCleanup (Some "J") (always true) 172800000 uploaded_J))).
Proof.
  apply (sweep_removes_iff (Some "J") (always true) 172800000 uploaded_J job_J).
  - simpl. constructor; [simpl; tauto | constructor].
  - simpl. left. reflexivity.
Defined.

(** ** Registry updates by the poller *)

Section Updates.

Variable parseDate : string -> Date.

Lemma updateFiles_In apiFile prev g :
  In g (updateFiles parseDate apiFile prev) <->
  (g = convertApiFileToProcessedFile parseDate apiFile
   /\ exists f, In f prev /\ ProcessedFile.id f = FileStatus.id apiFile)
  \/ (In g prev /\ ProcessedFile.id g <> FileStatus.id apiFile).
Proof.
  unfold updateFiles. rewrite in_map_iff. split.
  - intros [f [E Hin]].
    destruct (String.eqb (ProcessedFile.id f) (FileStatus.id apiFile)) eqn:Eid.
    + apply String.eqb_eq in Eid. left. split; [congruence|]. now exists f.
    + apply String.eqb_neq in Eid. right. subst g. now split.
  - intros [[E [f [Hin Eid]]] | [Hin Hne]].
    + exists f. apply String.eqb_eq in Eid. rewrite Eid. now split.
    + exists g. apply String.eqb_neq in Hne. rewrite Hne. now split.
Qed.

(** Whatever else a resolved poll does, its effect on the list of jobs is
    [updateFiles]. *)
Lemma pollFile_resolved_files c v apiFile st :
  files (pollFile_resolved parseDate c v apiFile st)
  = updateFiles parseDate apiFile (files st).
Proof.
  unfold pollFile_resolved.
  destruct (FileStatus.status apiFile); cbn; [reflexivity| |].
  - now destruct (is_id c (FileStatus.id apiFile) && AppView_eqb v processing).
  - now destruct (is_id c (FileStatus.id apiFile)).
Qed.

(** C4, as the code has it: the poller's update is unconditional.  The list
    of jobs after a resolved poll is [updateFiles] of the list before:
    every record that carries the snapshot's id is replaced by the converted
    snapshot, so its progress and status afterwards are the snapshot's,
    whether the progress is lower than the stored one or not; the records
    with another id are the ones the list had, and the list keeps its
    length. *)
Theorem updateFiles_overwrites apiFile prev :
  (forall c v st,
     files st = prev ->
     files (pollFile_resolved parseDate c v apiFile st)
     = updateFiles parseDate apiFile prev)
  /\ List.length (updateFiles parseDate apiFile prev) = List.length prev
  /\ (forall g, In g (updateFiles parseDate apiFile prev) ->
        ProcessedFile.id g = FileStatus.id apiFile ->
        g = convertApiFileToProcessedFile parseDate apiFile
        /\ ProcessedFile.progress g = FileStatus.progress apiFile
        /\ ProcessedFile.status g = FileStatus.status apiFile)
  /\ (forall f, In f prev ->
        ProcessedFile.id f = FileStatus.id apiFile ->
        In (convertApiFileToProcessedFile parseDate apiFile)
           (updateFiles parseDate apiFile prev))
  /\ (forall g, ProcessedFile.id g <> FileStatus.id apiFile ->
        (In g (updateFiles parseDate apiFile prev) <-> In g prev)).
Proof.
  split; [intros c v st <-; apply pollFile_resolved_files|].
  split; [apply length_map|]. split; [|split].
  - intros g Hg Eid. apply updateFiles_In in Hg as [[E _] | [_ Hne]].
    + subst g. repeat split.
    + contradiction.
  - intros f Hin Eid. apply updateFiles_In. left. split; [reflexivity|].
    now exists f.
  - intros g Hne. rewrite updateFiles_In. split.
    + intros [[E [f [Hin Eid]]] | [Hin _]]; [|assumption].
      subst g. simpl in Hne. contradiction.
    + intro Hin. right. now split.
Qed.

End Updates.

(** C4 as stated fails: the job [J] is stored with progress 50 and status
    [processing]; the next poll returns progress 30, status [processing];
    the update is applied, and the stored progress drops to 30. *)
Lemma progress_regresses :
  let poll pr st :=
    pollFile_resolved parseDate_ex (Some "J") processing
      (snapshot_J Status.processing pr "1970-01-03T00:00:00.000Z") st in
  let st1 := poll 50 uploaded_J in
  let st2 := poll 30 st1 in
  map (fun f => (ProcessedFile.status f, ProcessedFile.progress f))
      (files st1) = [(Status.processing, 50)]
  /\ map (fun f => (ProcessedFile.status f, ProcessedFile.progress f))
         (files st2) = [(Status.processing, 30)]
  /\ st2 <> st1.
Proof.
  cbv zeta. repeat split. intro H.
  apply (f_equal (fun st => map ProcessedFile.progress (files st))) in H.
  discriminate.
Qed.

(** ** Retention *)

(** C9, as the code has it: the single-upload handler gives the job it
    creates at time [t] the expiry [t + 172800000] ms (2 days).  A sweep
    compares its own time with the expiry stored in the record: while the
    record holds its creation value, the sweep removes it exactly when
    [now >= t + 2 days] and the delete succeeds, so not 1 s before and, the
    delete succeeding, 1 s after.  A sweep leaves the records it keeps as
    they are, but a resolved poll stores the backend's [expiry_date] in
    place of the creation value. *)
Theorem retention_window cap deleteFile now uploaded t file_id file st :
  let job := initialFile uploaded t file_id file in
  NoDup (map ProcessedFile.id (files st)) ->
  In job (files st) ->
  ProcessedFile.expiryDate job = Some (t + 172800000)
  /\ (~ In job (files (autoCleanup cap deleteFile now st)) <->
        t + 172800000 <= now /\ deleteFile file_id = true)
  /\ In job (files (autoCleanup cap deleteFile (t + 172800000 - 1000) st))
  /\ (deleteFile file_id = true ->
        ~ In job (files (autoCleanup cap deleteFile (t + 172800000 + 1000) st)))
  /\ (forall g, In g (files (autoCleanup cap deleteFile now st)) ->
                In g (files st))
  /\ (forall parseDate c v apiFile g,
        In g (files (pollFile_resolved parseDate c v apiFile st)) ->
        ProcessedFile.id g = FileStatus.id apiFile ->
        ProcessedFile.expiryDate g =
          parseDate (FileStatus.expiry_date apiFile)).
Proof.
  intros job Hnd Hin.
  assert (forall n, hits deleteFile n job = true <->
                    t + 172800000 <= n /\ deleteFile file_id = true) as Hhit.
  { intro n. rewrite hits_true. simpl. split.
    - intros [[e [E Hle]] Hd]. inversion E; subst. split; [lia | assumption].
    - intros [Hle Hd]. split; [|assumption].
      exists (t + 172800000). split; [reflexivity | lia]. }
  assert (forall n, In job (files (autoCleanup cap deleteFile n st)) <->
                    hits deleteFile n job = false) as Hkeep.
  { intro n. now apply autoCleanup_keeps. }
  split; [reflexivity|]. split; [|split; [|split; [|split]]].
  - rewrite Hkeep, <- Hhit.
    destruct (hits deleteFile now job); split; congruence.
  - apply Hkeep.
    destruct (hits deleteFile (t + 172800000 - 1000) job) eqn:E;
      [|reflexivity].
    apply Hhit in E. lia.
  - intro Hd. rewrite Hkeep.
    assert (hits deleteFile (t + 172800000 + 1000) job = true) as E.
    { apply Hhit. split; [lia | assumption]. }
    congruence.
  - intros g Hg. now apply autoCleanup_In in Hg.
  - intros parseDate c v apiFile g Hg Eid.
    rewrite pollFile_resolved_files in Hg.
    apply updateFiles_In in Hg as [[E _] | [_ Hne]]; [|contradiction].
    now subst g.
Qed.

(** The theorem at the job [J], created at time 0. *)
Lemma retention_window_witness :
  let job := initialFile 0 0 "J" a_pdf in
  ProcessedFile.expiryDate job = Some (0 + 172800000)
  /\ (~ In job (files (autoCleanup (Some "J") (always true) 172800000 uploaded_J)) <->
        0 + 172800000 <= 172800000 /\ always true "J" = true)
  /\ In job (files (autoCleanup (Some "J") (always true) (0 + 172800000 - 1000)
                                uploaded_J))
  /\ (always true "J" = true ->
        ~ In job (files (autoCleanup (Some "J") (always true) (0 + 172800000 + 1000)
                                     uploaded_J)))
  /\ (forall g,
        In g (files (autoCleanup (Some "J") (always true) 172800000 uploaded_J)) ->
        In g (files uploaded_J))
  /\ (forall parseDate c v apiFile g,
        In g (files (pollFile_resolved parseDate c v apiFile uploaded_J)) ->
        ProcessedFile.id g = FileStatus.id apiFile ->
        ProcessedFile.expiryDate g =
          parseDate (FileStatus.expiry_date apiFile)).
Proof.
  apply (retention_window (Some "J") (always true) 172800000 0 0 "J" a_pdf uploaded_J).
  - simpl. constructor; [simpl; tauto | constructor].
  - simpl. left. reflexivity.
Defined.

(** C9 as stated fails: the expiry of a job is not fixed at creation.  The
    job [J] is created at time 0 with expiry 2 days; the first poll returns
    a snapshot whose [expiry_date] is day 3, and the record then holds day
    3; a sweep 1 s after the 2 days, with a delete that would succeed,
    removes nothing. *)
Lemma expiry_replaced_by_poll :
  let st1 :=
    pollFile_resolved parseDate_ex (Some "J") processing
      (snapshot_J Status.processing 10 "1970-01-04T00:00:00.000Z")
      uploaded_J in
  map ProcessedFile.expiryDate (files uploaded_J) = [Some 172800000]
  /\ map ProcessedFile.expiryDate (files st1) = [Some 259200000]
  /\ files (autoCleanup (Some "J") (always true) (172800000 + 1000) st1) = files st1.
Proof. cbv zeta. repeat split. Qed.

(** ** Completion and navigation *)

(** What [pollFile] does with a [completed] snapshot, in terms of the
    values its closure holds.  If the job is the [processingFileId] of the
    closure and the [currentView] of the closure is [processing],
    [pollFile] arms one timer of 2000 ms and changes neither the view nor
    the bound job nor the toasts; when that timer fires, the view becomes
    [editor] with the job bound to it.  Otherwise no timer is armed, the
    view and the bound job stay as they are, and the only effect on the
    user is one toast with a [View] button.  The view and the
    [processingFileId] of [st], the state at the time the request settles,
    play no part. *)
Lemma pollFile_resolved_completed parseDate cap_processingFileId
    cap_currentView apiFile st :
  FileStatus.status apiFile = Status.completed ->
  let st' := pollFile_resolved parseDate cap_processingFileId cap_currentView
               apiFile st in
  let cb := AutoNavigate (FileStatus.id apiFile) (FileStatus.name apiFile) in
  (cap_processingFileId = Some (FileStatus.id apiFile)
   /\ cap_currentView = processing ->
     timeouts st' = timeouts st ++ [{| delay := 2000; callback := cb |}]
     /\ currentView st' = currentView st
     /\ previousView st' = previousView st
     /\ currentFileId st' = currentFileId st
     /\ toasts st' = toasts st
     /\ forall s, currentView (fireTimeout cb s) = editor
                  /\ currentFileId (fireTimeout cb s)
                     = Some (FileStatus.id apiFile))
  /\ (~ (cap_processingFileId = Some (FileStatus.id apiFile)
         /\ cap_currentView = processing) ->
     timeouts st' = timeouts st
     /\ currentView st' = currentView st
     /\ previousView st' = previousView st
     /\ currentFileId st' = currentFileId st
     /\ toasts st' = toasts st ++ [readyToast apiFile]).
Proof.
  intros Hs st' cb. subst st'. unfold pollFile_resolved. rewrite Hs. simpl.
  destruct (is_id cap_processingFileId (FileStatus.id apiFile)) eqn:Eid;
    destruct (AppView_eqb cap_currentView processing) eqn:Ev; simpl;
    (split; [intros [Hp Hv] | intro Hn]);
    try (apply is_id_true in Hp; congruence);
    try (apply AppView_eqb_eq in Hv; congruence);
    try (repeat split; fail).
  exfalso. apply Hn. split.
  - now apply is_id_true.
  - now apply AppView_eqb_eq.
Qed.

(** C6: the test [processingFileId === apiFile.id && currentView ===
    'processing'] reads the closure of the [pollFile] that sent the
    request, so it tells where the user was when the request was sent, not
    where the user is when the job completes.  The job [J] is uploaded and
    its first status request is sent from the processing screen.  While the
    request is pending the user opens the stored files, which also clears
    [processingFileId].  The request then resolves with [J] completed: no
    toast is added, and the timer of 2000 ms is armed.  The request the
    render on the stored files sent resolves next and adds the toast with
    the [View] button, and the timer stays armed.  When it fires, the view
    is forced from [stored] to [editor]. *)
Theorem stale_poll_forces_editor :
  let rq := pollFile_issue uploaded_J "J" in
  let st1 := onViewStored uploaded_J in
  let apiFile := snapshot_J Status.completed 100 "1970-01-03T00:00:00.000Z" in
  let st2 := pollFile_settle parseDate_ex rq (Some apiFile) st1 in
  let st3 :=
    pollFile_settle parseDate_ex (pollFile_issue st1 "J") (Some apiFile) st2 in
  let st4 := fireTimeout (AutoNavigate "J" "a.pdf") st3 in
  (poll_processingFileId rq, poll_currentView rq) = (Some "J", processing)
  /\ (currentView st1, processingFileId st1) = (stored, None)
  /\ (currentView st2, processingFileId st2) = (stored, None)
  /\ toasts st2 = toasts st1
  /\ timeouts st2
     = [{| delay := 2000; callback := AutoNavigate "J" "a.pdf" |}]
  /\ currentView st3 = stored
  /\ toasts st3 = toasts st1 ++ [readyToast apiFile]
  /\ timeouts st3 = timeouts st2
  /\ (currentView st4, currentFileId st4) = (editor, Some "J").
Proof. cbv zeta. repeat split. Qed.

(** The user left the processing screen for the stored files before the
    request was sent: the view stays [stored], no timer is armed, and the
    toast with the [View] button is shown. *)
Example completion_while_on_stored :
  let st := onViewStored uploaded_J in
  let st' :=
    pollFile_resolved parseDate_ex (processingFileId st) (currentView st)
      (snapshot_J Status.completed 100 "1970-01-03T00:00:00.000Z") st in
  currentView st = stored
  /\ currentView st' = stored
  /\ timeouts st' = []
  /\ map title (toasts st')
     = ["File uploaded successfully"; "Processing complete: a.pdf"]
  /\ map action (toasts st') = [None; Some (ViewFile "J")].
Proof. cbv zeta. repeat split. Qed.

(** The grace delay has passed: the timer armed for [J] fires, and the view
    is the editor on [J]. *)
Example grace_delay_then_editor :
  let st' :=
    pollFile_resolved parseDate_ex (Some "J") processing
      (snapshot_J Status.completed 100 "1970-01-03T00:00:00.000Z")
      uploaded_J in
  map delay (timeouts st') = [2000]
  /\ currentView st' = processing
  /\ map (fun t => currentView (fireTimeout (callback t) st'))
         (timeouts st') = [editor].
Proof. cbv zeta. repeat split. Qed.

(** ** The polling hook *)

Section PollingProofs.

Context {Host : Type}.
Variable onUpdate : @Callback Host FileStatus.t.
Variable onComplete : option (@Callback Host FileStatus.t).
Variable onError : option (@Callback Host Error).

Abbreviation settled := (pollFileStatus_settled onUpdate onComplete onError).
Abbreviation try_ := (try_block onUpdate onComplete).
Abbreviation catch_ := (catch_block onError).
Abbreviation step_ := (step onUpdate onComplete onError).
Abbreviation run_ := (run onUpdate onComplete onError).

Lemma stopInterval_None ps : intervalRef (stopInterval ps) = None.
Proof. unfold stopInterval. now destruct (intervalRef ps) eqn:E. Qed.

Lemma stopInterval_rest ps :
  isPollingRef (stopInterval ps) = isPollingRef ps
  /\ retryCount (stopInterval ps) = retryCount ps.
Proof. unfold stopInterval. now destruct (intervalRef ps). Qed.

(** The [catch] block, field by field. *)
Lemma catch_block_spec e ps h :
  let r := catch_ e ps h in
  retryCount (refs_of r) = S (retryCount ps)
  /\ isPollingRef (refs_of r) = isPollingRef ps
  /\ intervalRef (refs_of r) =
       (if (maxRetries <=? S (retryCount ps))%nat then None
        else intervalRef ps)
  /\ host_of r =
       (if (maxRetries <=? S (retryCount ps))%nat then
          match onError with Some oe => fst (oe e h) | None => h end
        else h).
Proof.
  unfold catch_block. cbn [retryCount setRetryCount].
  destruct (maxRetries <=? S (retryCount ps))%nat.
  - destruct onError as [oe|].
    + destruct (oe e h) as [h' c]. cbn.
      rewrite stopInterval_None.
      now destruct (stopInterval_rest (setRetryCount (S (retryCount ps)) ps)).
    + cbn. rewrite stopInterval_None.
      now destruct (stopInterval_rest (setRetryCount (S (retryCount ps)) ps)).
  - now cbn.
Qed.

(** The [try] block when no callback throws. *)
Lemma try_block_spec file ps h h1 :
  onUpdate file h = (h1, Returned tt) ->
  (forall oc, onComplete = Some oc ->
     FileStatus.status file = Status.completed ->
     snd (oc file h1) = Returned tt) ->
  let r := try_ file ps h in
  completion_of r = Returned tt
  /\ retryCount (refs_of r) = 0%nat
  /\ isPollingRef (refs_of r) = isPollingRef ps
  /\ intervalRef (refs_of r) =
       (if isTerminal (FileStatus.status file) then None else intervalRef ps)
  /\ host_of r =
       match FileStatus.status file, onComplete with
       | Status.completed, Some oc => fst (oc file h1)
       | _, _ => h1
       end.
Proof.
  intros Hu Hc. unfold try_block. rewrite Hu.
  destruct (FileStatus.status file) eqn:Es; cbn.
  - repeat split.
  - destruct onComplete as [oc|].
    + specialize (Hc oc eq_refl eq_refl). cbn in Hc.
      destruct (oc file h1) as [h2 c]. cbn in *.
      rewrite stopInterval_None.
      now destruct (stopInterval_rest (setRetryCount 0 ps)).
    + cbn. rewrite stopInterval_None.
      now destruct (stopInterval_rest (setRetryCount 0 ps)).
  - rewrite stopInterval_None.
    destruct (stopInterval_rest (setRetryCount 0 ps)) as [A B].
    destruct onComplete; cbn; now rewrite ?stopInterval_None, ?A, ?B.
Qed.

(** Whatever happens, the [finally] block runs last. *)
Lemma settled_flag fetched ps h :
  isPollingRef (refs_of (settled fetched ps h)) = false.
Proof.
  unfold pollFileStatus_settled.
  destruct fetched as [file|e].
  - destruct (try_ file ps h) as [[ps1 h1] [u|e]].
    + reflexivity.
    + now destruct (catch_ e ps1 h1) as [[ps2 h2] c].
  - now destruct (catch_ e ps h) as [[ps2 h2] c].
Qed.

(** No path of [pollFileStatus] arms a timer. *)
Lemma try_block_interval file ps h :
  intervalRef (refs_of (try_ file ps h)) = None
  \/ intervalRef (refs_of (try_ file ps h)) = intervalRef ps.
Proof.
  unfold try_block. destruct (onUpdate file h) as [h1 [u|e]]; [|now right].
  destruct (isTerminal (FileStatus.status file)); [|now right].
  left.
  destruct (Status.eqb (FileStatus.status file) Status.completed),
           onComplete as [oc|]; try (cbn; apply stopInterval_None).
  destruct (oc file h1) as [h2 c]. cbn. apply stopInterval_None.
Qed.

Lemma settled_interval fetched ps h :
  intervalRef (refs_of (settled fetched ps h)) = None
  \/ intervalRef (refs_of (settled fetched ps h)) = intervalRef ps.
Proof.
  assert (forall e ps h, intervalRef (refs_of (catch_ e ps h)) = None
                         \/ intervalRef (refs_of (catch_ e ps h))
                            = intervalRef ps) as Hcatch.
  { intros e ps0 h0.
    destruct (catch_block_spec e ps0 h0) as (_ & _ & Hi & _). rewrite Hi.
    destruct (maxRetries <=? S (retryCount ps0))%nat; auto. }
  unfold pollFileStatus_settled. destruct fetched as [file|e].
  - pose proof (try_block_interval file ps h) as Ht.
    destruct (try_ file ps h) as [[ps1 h1] [u|e]]; cbn in *; [assumption|].
    specialize (Hcatch e ps1 h1).
    destruct (catch_ e ps1 h1) as [[ps2 h2] c]. cbn in *.
    destruct Hcatch as [H|H]; [now left|]. rewrite H. assumption.
  - specialize (Hcatch e ps h).
    now destruct (catch_ e ps h) as [[ps2 h2] c].
Qed.

(** *** The hook as a machine *)

Lemma begin_flag_counts (p : Poller Host) :
  flag_counts p -> flag_counts (pollFileStatus_begin p).
Proof.
  unfold flag_counts, pollFileStatus_begin. intro H.
  destruct (isPollingRef (refs p)) eqn:E; cbn; [now rewrite E | now rewrite H].
Qed.

Lemma resume_fields fetched (p : Poller Host) n :
  pending p = S n ->
  let r := settled fetched (refs p) (host p) in
  refs (pollFileStatus_resume onUpdate onComplete onError fetched p)
    = refs_of r
  /\ host (pollFileStatus_resume onUpdate onComplete onError fetched p)
     = host_of r
  /\ pending (pollFileStatus_resume onUpdate onComplete onError fetched p) = n
  /\ attempts (pollFileStatus_resume onUpdate onComplete onError fetched p)
     = attempts p.
Proof.
  intro Hp. unfold pollFileStatus_resume. rewrite Hp.
  now destruct (settled fetched (refs p) (host p)) as [[ps h] c].
Qed.

Lemma step_flag_counts (p : Poller Host) ev :
  flag_counts p -> flag_counts (step_ p ev).
Proof.
  intro H. destruct ev as [|fetched|]; cbn.
  - destruct (intervalRef (refs p)); [now apply begin_flag_counts | assumption].
  - destruct (pending p) as [|n] eqn:Hp.
    + unfold pollFileStatus_resume. now rewrite Hp.
    + destruct (resume_fields fetched p n Hp) as (Hr & _ & Hn & _).
      unfold flag_counts in *. rewrite Hr, Hn, settled_flag.
      destruct (isPollingRef (refs p)); congruence.
  - unfold flag_counts, cleanup in *. cbn.
    now destruct (stopInterval_rest (refs p)) as [-> _].
Qed.

Lemma mount_flag_counts fileId enabled timer (h : Host) :
  flag_counts (mount fileId enabled timer h).
Proof.
  unfold mount. now destruct (negb enabled || String.eqb fileId EmptyString).
Qed.

Lemma run_flag_counts evs (p : Poller Host) :
  flag_counts p -> flag_counts (run_ evs p).
Proof.
  revert p. induction evs as [|ev evs IH]; intros p H; [assumption|].
  change (run_ (ev :: evs) p) with (run_ evs (step_ p ev)).
  apply IH. now apply step_flag_counts.
Qed.

(** X20: in every state a mounted hook can reach, at most one request is
    pending, and a tick that finds the flag set changes nothing. *)
Lemma useFilePolling_single_flight fileId enabled timer (h : Host) evs :
  let p := run_ evs (mount fileId enabled timer h) in
  (pending p <= 1)%nat
  /\ (isPollingRef (refs p) = true -> step_ p Tick = p).
Proof.
  cbv zeta.
  pose proof (run_flag_counts evs _ (mount_flag_counts fileId enabled timer h))
    as H.
  unfold flag_counts in H. split.
  - rewrite H. destruct (isPollingRef _); lia.
  - intro E. cbn. unfold pollFileStatus_begin. rewrite E.
    now destruct (intervalRef _).
Qed.

(** Once the interval is cleared it stays cleared, and no request is issued
    any more. *)
Lemma stopped_stays (p : Poller Host) evs :
  intervalRef (refs p) = None ->
  intervalRef (refs (run_ evs p)) = None
  /\ attempts (run_ evs p) = attempts p.
Proof.
  revert p. induction evs as [|ev evs IH]; intros p Hn; [now split|].
  change (run_ (ev :: evs) p) with (run_ evs (step_ p ev)).
  assert (intervalRef (refs (step_ p ev)) = None
          /\ attempts (step_ p ev) = attempts p) as [Hi Ha].
  { destruct ev as [|fetched|]; cbn.
    - now rewrite Hn.
    - destruct (pending p) as [|n] eqn:Hp.
      + unfold pollFileStatus_resume. now rewrite Hp.
      + destruct (resume_fields fetched p n Hp) as (Hr & _ & _ & Hat).
        rewrite Hr, Hat. split; [|reflexivity].
        destruct (settled_interval fetched (refs p) (host p)) as [H|H];
          congruence.
    - split; [apply stopInterval_None | reflexivity]. }
  destruct (IH _ Hi) as [Hi' Ha']. split; congruence.
Qed.

(** *** Failures and the retry ceiling *)

Lemma settled_Thrown e ps h :
  refs_of (settled (Thrown e) ps h) = finally_block (refs_of (catch_ e ps h))
  /\ host_of (settled (Thrown e) ps h) = host_of (catch_ e ps h).
Proof.
  unfold pollFileStatus_settled.
  now destruct (catch_ e ps h) as [[ps' h'] c].
Qed.

Lemma settled_Returned file ps h :
  completion_of (try_ file ps h) = Returned tt ->
  refs_of (settled (Returned file) ps h)
    = finally_block (refs_of (try_ file ps h))
  /\ host_of (settled (Returned file) ps h) = host_of (try_ file ps h)
  /\ completion_of (settled (Returned file) ps h) = Returned tt.
Proof.
  unfold pollFileStatus_settled.
  destruct (try_ file ps h) as [[ps' h'] [u|e]]; cbn; [|discriminate].
  intros _. now destruct u.
Qed.

(** A failed request, field by field. *)
Lemma failure_spec e ps h :
  let r := settled (Thrown e) ps h in
  retryCount (refs_of r) = S (retryCount ps)
  /\ isPollingRef (refs_of r) = false
  /\ ((S (retryCount ps) < maxRetries)%nat ->
        intervalRef (refs_of r) = intervalRef ps /\ host_of r = h)
  /\ ((maxRetries <= S (retryCount ps))%nat ->
        intervalRef (refs_of r) = None
        /\ host_of r =
             match onError with Some oe => fst (oe e h) | None => h end).
Proof.
  cbv zeta. destruct (settled_Thrown e ps h) as [Hr Hh]. rewrite Hr, Hh.
  destruct (catch_block_spec e ps h) as (Hc & _ & Hi & Hho).
  cbn [finally_block setIsPollingRef retryCount isPollingRef intervalRef].
  rewrite Hc, Hi, Hho. repeat split.
  - apply Nat.leb_gt in H. now rewrite H.
  - apply Nat.leb_gt in H. now rewrite H.
  - apply Nat.leb_le in H. now rewrite H.
  - apply Nat.leb_le in H. now rewrite H.
Qed.

(** The state of the hook after three failures in a row from its mount. *)
Lemma three_failures fileId timer (h : Host) e1 e2 e3 :
  fileId <> EmptyString ->
  let p := run_ [Settled (Thrown e1); Tick; Settled (Thrown e2); Tick;
                 Settled (Thrown e3)] (mount fileId true timer h) in
  retryCount (refs p) = 3%nat
  /\ intervalRef (refs p) = None
  /\ isPollingRef (refs p) = false
  /\ attempts p = 3%nat
  /\ pending p = 0%nat
  /\ host p = match onError with Some oe => fst (oe e3 h) | None => h end.
Proof.
  intro Hne. apply String.eqb_neq in Hne.
  unfold mount. rewrite Hne. cbn.
  destruct onError as [oe|]; cbn; [|repeat split].
  unfold pollFileStatus_settled, catch_block. cbn.
  destruct (oe e3 h) as [h' c]. cbn. repeat split.
Qed.

(** C2, as the code has it: every failed request adds one to [retryCount]
    and clears the in-flight flag; while the count is below 3 the interval
    stays armed and the caller's state is left alone; when the count reaches
    3 the hook clears its interval and hands the error to [onError], if the
    caller passed one, and that call is all that happens to the caller's
    state: the hook itself never writes a job status.  After the interval is
    cleared no further request is issued, whatever happens next; so three
    failures in a row from the mount end the polling with three requests
    made. *)
Theorem retry_ceiling :
  (forall e ps h,
     let r := settled (Thrown e) ps h in
     retryCount (refs_of r) = S (retryCount ps)
     /\ isPollingRef (refs_of r) = false
     /\ ((S (retryCount ps) < maxRetries)%nat ->
           intervalRef (refs_of r) = intervalRef ps /\ host_of r = h)
     /\ ((maxRetries <= S (retryCount ps))%nat ->
           intervalRef (refs_of r) = None
           /\ host_of r =
                match onError with Some oe => fst (oe e h) | None => h end))
  /\ (forall (p : Poller Host) evs,
        intervalRef (refs p) = None ->
        attempts (run_ evs p) = attempts p)
  /\ (forall fileId timer h e1 e2 e3 evs,
        fileId <> EmptyString ->
        let p := run_ [Settled (Thrown e1); Tick; Settled (Thrown e2); Tick;
                       Settled (Thrown e3)] (mount fileId true timer h) in
        retryCount (refs p) = 3%nat
        /\ intervalRef (refs p) = None
        /\ attempts p = 3%nat
        /\ attempts (run_ evs p) = 3%nat
        /\ host p =
             match onError with Some oe => fst (oe e3 h) | None => h end).
Proof.
  split; [exact failure_spec|]. split.
  - intros p evs Hn. now apply stopped_stays.
  - intros fileId timer h e1 e2 e3 evs Hne p.
    destruct (three_failures fileId timer h e1 e2 e3 Hne)
      as (Hc & Hi & _ & Ha & _ & Hh).
    fold p in Hc, Hi, Ha, Hh. repeat split; try assumption.
    destruct (stopped_stays p evs Hi) as [_ H]. congruence.
Qed.

(** *** Successes *)

(** C5: when a request succeeds and the callbacks it triggers return, the
    hook has [retryCount = 0], the in-flight flag cleared, and the caller's
    state is the one [onUpdate] produced from the snapshot (followed by
    [onComplete] for a completed job).  For a terminal status ([completed]
    or [error]) the interval is cleared and no request is issued any more;
    otherwise the interval stays as it was, and if it is armed its next tick
    issues the next request.  So after a first and a second failure and then
    a success with a non-terminal status, the count is 0 again, the interval
    is still armed, and the next tick issues the fourth request. *)
Theorem success_resets_retries file ps h h1 :
  onUpdate file h = (h1, Returned tt) ->
  (forall oc, onComplete = Some oc ->
     FileStatus.status file = Status.completed ->
     snd (oc file h1) = Returned tt) ->
  let r := settled (Returned file) ps h in
  retryCount (refs_of r) = 0%nat
  /\ isPollingRef (refs_of r) = false
  /\ host_of r =
       match FileStatus.status file, onComplete with
       | Status.completed, Some oc => fst (oc file h1)
       | _, _ => h1
       end
  /\ (isTerminal (FileStatus.status file) = true ->
        intervalRef (refs_of r) = None
        /\ forall (p : Poller Host) evs,
             refs p = ps -> host p = h -> pending p <> 0%nat ->
             attempts (run_ evs (step_ p (Settled (Returned file))))
             = attempts p)
  /\ (isTerminal (FileStatus.status file) = false ->
        intervalRef (refs_of r) = intervalRef ps
        /\ forall (p : Poller Host),
             refs p = ps -> host p = h -> pending p <> 0%nat ->
             intervalRef ps <> None ->
             attempts (step_ (step_ p (Settled (Returned file))) Tick)
             = S (attempts p))
  /\ (forall fileId timer e1 e2,
        fileId <> EmptyString ->
        isTerminal (FileStatus.status file) = false ->
        let p := run_ [Settled (Thrown e1); Tick; Settled (Thrown e2); Tick;
                       Settled (Returned file)] (mount fileId true timer h) in
        retryCount (refs p) = 0%nat
        /\ intervalRef (refs p) = Some timer
        /\ host p = h1
        /\ attempts p = 3%nat
        /\ attempts (step_ p Tick) = 4%nat).
Proof.
  intros Hu Hc r.
  destruct (try_block_spec file ps h h1 Hu Hc) as (Hcomp & Hr & _ & Hi & Hh).
  destruct (settled_Returned file ps h Hcomp) as (Er & Eh & _).
  assert (forall p : Poller Host,
            refs p = ps -> host p = h -> pending p <> 0%nat ->
            refs (step_ p (Settled (Returned file))) = refs_of r
            /\ attempts (step_ p (Settled (Returned file))) = attempts p)
    as Hstep.
  { intros p Hps Hh' Hp. destruct (pending p) as [|n] eqn:En;
      [contradiction|].
    destruct (resume_fields (Returned file) p n En) as (R1 & _ & _ & R4).
    rewrite Hps, Hh' in R1. now split. }
  subst r. rewrite Er in Hstep. rewrite Er, Eh.
  set (r := finally_block (refs_of (try_ file ps h))) in *.
  assert (retryCount r = 0%nat /\ isPollingRef r = false
          /\ intervalRef r = if isTerminal (FileStatus.status file)
                             then None else intervalRef ps)
    as (Hr' & Hf' & Hi') by (subst r; cbn; now rewrite Hr, Hi).
  clearbody r. rewrite Hr', Hf', Hi', Hh.
  split; [reflexivity|]. split; [reflexivity|]. split; [reflexivity|].
  split; [|split].
  - intro Ht. rewrite Ht. split; [reflexivity|].
    intros p evs Hps Hh' Hp. destruct (Hstep p Hps Hh' Hp) as [R1 R4].
    assert (intervalRef (refs (step_ p (Settled (Returned file)))) = None)
      as Hnone.
    { rewrite R1, Hi'. now rewrite Ht. }
    destruct (stopped_stays _ evs Hnone) as [_ Ha]. congruence.
  - intro Ht. rewrite Ht. split; [reflexivity|].
    intros p Hps Hh' Hp Harmed. destruct (Hstep p Hps Hh' Hp) as [R1 R4].
    set (p' := step_ p (Settled (Returned file))) in *.
    assert (intervalRef (refs p') = intervalRef ps) as Hi2.
    { rewrite R1, Hi'. now rewrite Ht. }
    assert (isPollingRef (refs p') = false) as Hf2 by now rewrite R1.
    clearbody p'. cbn. rewrite Hi2.
    destruct (intervalRef ps); [|contradiction].
    unfold pollFileStatus_begin. rewrite Hf2. cbn. congruence.
  - intros fileId timer e1 e2 Hne Ht. apply String.eqb_neq in Hne.
    unfold mount. rewrite Hne. cbn.
    unfold pollFileStatus_resume, pollFileStatus_settled, try_block. cbn.
    rewrite Hu, Ht. cbn. repeat split.
Qed.

(** *** The in-flight flag *)

(** C10: whichever way [pollFileStatus] leaves its [try] (the request
    resolved or rejected, a callback returned or threw), the in-flight flag
    is [false] when it ends.  So when a pending request settles, the flag is
    cleared, and the next tick of a still armed interval issues a request
    instead of being skipped. *)
Theorem flag_cleared_on_every_path :
  (forall fetched ps h,
     isPollingRef (refs_of (settled fetched ps h)) = false)
  /\ (forall (p : Poller Host) fetched,
        pending p <> 0%nat ->
        let p' := step_ p (Settled fetched) in
        isPollingRef (refs p') = false
        /\ (intervalRef (refs p') <> None ->
              attempts (step_ p' Tick) = S (attempts p')
              /\ pending (step_ p' Tick) = S (pending p'))).
Proof.
  split; [exact settled_flag|].
  intros p fetched Hp p'.
  destruct (pending p) as [|n] eqn:En; [contradiction|].
  destruct (resume_fields fetched p n En) as (Hr & _ & _ & _).
  assert (isPollingRef (refs p') = false) as Hflag.
  { subst p'. cbn. rewrite Hr. apply settled_flag. }
  clearbody p'. split; [assumption|]. intro Harmed. cbn.
  destruct (intervalRef (refs p')); [|contradiction].
  unfold pollFileStatus_begin. now rewrite Hflag.
Qed.

End PollingProofs.

(** *** The hook over the registry of [App] *)

(** The theorem for a hook whose [onUpdate] writes into the registry, at a
    successful poll of [J] that follows two failures. *)
Lemma success_resets_retries_witness :
  let file := snapshot_J Status.processing 40 "1970-01-03T00:00:00.000Z" in
  let ps := {| intervalRef := Some 7%nat; isPollingRef := true;
               retryCount := 2 |} in
  let r := pollFileStatus_settled registryUpdate None None (Returned file)
             ps (files uploaded_J) in
  retryCount (refs_of r) = 0%nat
  /\ isPollingRef (refs_of r) = false
  /\ host_of r = updateFiles parseDate_ex file (files uploaded_J)
  /\ intervalRef (refs_of r) = Some 7%nat.
Proof.
  intros file ps r.
  assert (registryUpdate file (files uploaded_J)
          = (updateFiles parseDate_ex file (files uploaded_J), Returned tt))
    as Hu by reflexivity.
  assert (forall oc : @Callback (list ProcessedFile.t) FileStatus.t,
            None = Some oc ->
            FileStatus.status file = Status.completed ->
            snd (oc file (updateFiles parseDate_ex file (files uploaded_J)))
            = Returned tt) as Hoc by (intros oc H; discriminate H).
  destruct (success_resets_retries registryUpdate None None file ps
              (files uploaded_J)
              (updateFiles parseDate_ex file (files uploaded_J)) Hu Hoc)
    as (Hc & Hf & Hh & _ & Hi & _).
  split; [exact Hc|]. split; [exact Hf|]. split; [exact Hh|].
  apply (proj1 (Hi eq_refl)).
Defined.

(** C2 as stated fails: nothing marks the job as failed.  The hook polls
    the job [J] of a registry with no [onError]; after three failed requests
    in a row its interval is cleared and the count is 3, and the job is
    still [processing] with no error recorded.  The inline poller of
    [App.tsx] gives up at its first failed request and leaves the job
    [processing] as well. *)
Lemma failures_leave_job_processing :
  let p := run registryUpdate None None
             [Settled (Thrown "Network Error"); Tick;
              Settled (Thrown "Network Error"); Tick;
              Settled (Thrown "Network Error")]
             (mount "J" true 7%nat (files uploaded_J)) in
  let st := pollFile_rejected "J" uploaded_J in
  retryCount (refs p) = 3%nat
  /\ intervalRef (refs p) = None
  /\ map (fun f => (ProcessedFile.status f, ProcessedFile.error f)) (host p)
     = [(Status.processing, None)]
  /\ processingFileIds st = []
  /\ map (fun f => (ProcessedFile.status f, ProcessedFile.error f)) (files st)
     = [(Status.processing, None)].
Proof. cbv zeta. repeat split. Qed.

(** ** The inline poller *)

Lemma pendingFor_begin fileId rt :
  pendingFor fileId (pollFile_begin fileId rt) = S (pendingFor fileId rt).
Proof.
  unfold pendingFor, pollFile_begin. cbn [inFlight].
  rewrite filter_app, length_app. cbn. rewrite String.eqb_refl. cbn. lia.
Qed.

(** C3 on the poller that [App] runs: [pollFile] keeps no in-flight flag,
    so every tick of the interval of a polled job issues a request on top of
    the ones that are pending.  After the upload of [J], the effect issues
    the first request; a tick that fires before it settles issues a second
    one, and two requests for [J] are in flight. *)
Theorem pollFile_requests_overlap :
  (forall fileId rt,
     set_has fileId (processingFileIds (app rt)) = true ->
     pendingFor fileId (intervalTick fileId rt) = S (pendingFor fileId rt))
  /\ (let rt := pollingEffect {| app := uploaded_J; inFlight := [] |} in
      inFlight rt = ["J"]
      /\ inFlight (intervalTick "J" rt) = ["J"; "J"]
      /\ pendingFor "J" (intervalTick "J" rt) = 2%nat).
Proof.
  split.
  - intros fileId rt H. unfold intervalTick. rewrite H.
    apply pendingFor_begin.
  - cbv zeta. repeat split.
Qed.

(** * Further code of the frontend

    The rest of [App.tsx] (file lookup, selection, manual delete, text
    update, batch upload, logout), and the expiry display of
    [components/StoredFilesPage.tsx], over the same state. *)

From Stdlib Require Import Ascii DecimalString.

(** ** Errors of the API client and toasts without description *)

(** What the handlers read of a rejected request:
    [error.response?.data?.detail] and [error.message]. *)
Record ApiError := { detail : option string; message : option string }.

(** How a request of a handler ends. *)
Inductive Settlement (A : Type) :=
| Resolved (a : A)
| Rejected (e : ApiError).

Arguments Resolved {A} a.
Arguments Rejected {A} e.

(** [a || b] on [string | undefined]: the empty string is falsy. *)
Definition js_or (a b : option string) : option string :=
  match a with
  | Some EmptyString | None => b
  | Some s => Some s
  end.

(** [a || 'text']. *)
Definition js_or_default (a : option string) (d : string) : string :=
  match a with
  | Some EmptyString | None => d
  | Some s => s
  end.

(** A toast whose description may be absent, as [deleteFile] and
    [updateFileText] show them; these handlers return it beside the state. *)
Record Notice := {
  notice_kind : ToastKind;
  notice_title : string;
  notice_description : option string
}.

(** ** Lookup, selection and leaving the editor *)

(** [files.find((f) => f.id === currentFileId) || null] *)
Definition currentFile (st : AppState) : option ProcessedFile.t :=
  find (fun f => is_id (currentFileId st) (ProcessedFile.id f)) (files st).

(** [onSelectFile] of the batch and stored pages. *)
Definition onSelectFile (fileId : string) (st : AppState) : AppState :=
  navigateTo editor (setCurrentFileId (Some fileId) st).

(** [onBack] of the editor page; it is rendered only when [currentFile] is
    defined. *)
Definition editor_onBack (st : AppState) : AppState :=
  match currentFile st with
  | Some file =>
      let st := if is_id (processingFileId st) (ProcessedFile.id file)
                then setProcessingFileId None st else st in
      goBack st
  | None => st
  end.

(** ** [deleteFile] *)

(** [deleteFile(fileId)] once [api.deleteFile] has settled;
    [cap_currentFileId] is the [currentFileId] of the render that created
    the handler. *)
Definition deleteFile (cap_currentFileId : option string)
    (settled : Settlement unit) (fileId : string) (st : AppState)
    : AppState * Notice :=
  match settled with
  | Resolved _ =>
      let st :=
        setFiles
          (filter (fun f => negb (String.eqb (ProcessedFile.id f) fileId)))
          st in
      let st := if is_id cap_currentFileId fileId
                then setCurrentView upload (setCurrentFileId None st)
                else st in
      (st, {| notice_kind := toast_success; notice_title := "File deleted";
              notice_description := None |})
  | Rejected e =>
      (st, {| notice_kind := toast_error;
              notice_title := "Failed to delete file";
              notice_description := js_or (detail e) (message e) |})
  end.

(** ** [updateFileText] and its counts

    A character of a text stands for the UTF-16 code unit of the same
    number; the texts covered are those whose code units are below 256. *)

(** The code units below 256 that [\s] matches: tab, line feed, vertical
    tab, form feed, carriage return, space, no-break space. *)
Definition isWhiteSpace (c : ascii) : bool :=
  let n := nat_of_ascii c in
  ((9 <=? n) && (n <=? 13) || (n =? 32) || (n =? 160))%nat.

(** [s.split(/\s+/)], started as [splitWs false EmptyString s]: [cur] is
    the piece being read, [prev_ws] tells that the previous character
    belonged to a separator. *)
Fixpoint splitWs (prev_ws : bool) (cur : string) (s : string) : list string :=
  match s with
  | EmptyString => [cur]
  | String c rest =>
      if isWhiteSpace c then
        if prev_ws then splitWs true cur rest
        else cur :: splitWs true EmptyString rest
      else splitWs false (cur ++ String c EmptyString)%string rest
  end.

(** [s.split(sep)] for a separator of one character. *)
Fixpoint splitOn (sep : ascii) (cur : string) (s : string) : list string :=
  match s with
  | EmptyString => [cur]
  | String c rest =>
      if Ascii.eqb c sep then cur :: splitOn sep EmptyString rest
      else splitOn sep (cur ++ String c EmptyString)%string rest
  end.

Definition newline : ascii := ascii_of_nat 10.

(** [newText.split(/\s+/).filter((word) => word.length > 0).length] *)
Definition wordCountOf (newText : string) : nat :=
  List.length
    (filter (fun word => (0 <? String.length word)%nat)
            (splitWs false EmptyString newText)).

(** [newText.length] *)
Definition charCountOf (newText : string) : nat := String.length newText.

(** [newText.split('\n').length] *)
Definition lineCountOf (newText : string) : nat :=
  List.length (splitOn newline EmptyString newText).

(** [{ ...f, extractedText: newText, wordCount, charCount, lineCount }] *)
Definition withText (newText : string) (f : ProcessedFile.t)
    : ProcessedFile.t :=
  {| ProcessedFile.id := ProcessedFile.id f;
     ProcessedFile.name := ProcessedFile.name f;
     ProcessedFile.uploadDate := ProcessedFile.uploadDate f;
     ProcessedFile.expiryDate := ProcessedFile.expiryDate f;
     ProcessedFile.status := ProcessedFile.status f;
     ProcessedFile.extractedText := newText;
     ProcessedFile.originalFile := ProcessedFile.originalFile f;
     ProcessedFile.progress := ProcessedFile.progress f;
     ProcessedFile.progress_message := ProcessedFile.progress_message f;
     ProcessedFile.fileSize := ProcessedFile.fileSize f;
     ProcessedFile.wordCount := Z.of_nat (wordCountOf newText);
     ProcessedFile.charCount := Z.of_nat (charCountOf newText);
     ProcessedFile.lineCount := Z.of_nat (lineCountOf newText);
     ProcessedFile.pages_data := ProcessedFile.pages_data f;
     ProcessedFile.error := ProcessedFile.error f |}.

(** [updateFileText(fileId, newText)] once [api.updateFileText] has
    settled. *)
Definition updateFileText (settled : Settlement unit) (fileId : string)
    (newText : string) (st : AppState) : AppState * option Notice :=
  match settled with
  | Resolved _ =>
      (setFiles
         (map (fun f => if String.eqb (ProcessedFile.id f) fileId
                        then withText newText f else f)) st,
       None)
  | Rejected e =>
      (st, Some {| notice_kind := toast_error;
                   notice_title := "Failed to save text";
                   notice_description := js_or (detail e) (message e) |})
  end.

(** ** The batch branch of [handleFilesUploaded] *)

(** [`${n}`] for a count. *)
Definition showNat (n : nat) : string :=
  NilZero.string_of_uint (Nat.to_uint n).

(** [{ ...convertApiFileToProcessedFile(file), originalFile }] *)
Definition withOriginalFile (o : option File) (f : ProcessedFile.t)
    : ProcessedFile.t :=
  {| ProcessedFile.id := ProcessedFile.id f;
     ProcessedFile.name := ProcessedFile.name f;
     ProcessedFile.uploadDate := ProcessedFile.uploadDate f;
     ProcessedFile.expiryDate := ProcessedFile.expiryDate f;
     ProcessedFile.status := ProcessedFile.status f;
     ProcessedFile.extractedText := ProcessedFile.extractedText f;
     ProcessedFile.originalFile := o;
     ProcessedFile.progress := ProcessedFile.progress f;
     ProcessedFile.progress_message := ProcessedFile.progress_message f;
     ProcessedFile.fileSize := ProcessedFile.fileSize f;
     ProcessedFile.wordCount := ProcessedFile.wordCount f;
     ProcessedFile.charCount := ProcessedFile.charCount f;
     ProcessedFile.lineCount := ProcessedFile.lineCount f;
     ProcessedFile.pages_data := ProcessedFile.pages_data f;
     ProcessedFile.error := ProcessedFile.error f |}.

(** [fileStatuses.map((file, index) => ...)], from index [index] on;
    [newFiles[index]] is undefined past the end of [newFiles]. *)
Fixpoint processedFilesFrom (parseDate : string -> Date) (newFiles : list File)
    (index : nat) (fileStatuses : list FileStatus.t)
    : list ProcessedFile.t :=
  match fileStatuses with
  | [] => []
  | file :: rest =>
      withOriginalFile (nth_error newFiles index)
                       (convertApiFileToProcessedFile parseDate file)
      :: processedFilesFrom parseDate newFiles (S index) rest
  end.

(** The toast of the [catch] of [handleFilesUploaded]. *)
Definition uploadFailed (e : ApiError) : Toast :=
  {| kind := toast_error; title := "Upload failed";
     description :=
       js_or_default (js_or (detail e) (message e)) "Unknown error";
     action := None |}.

(** The batch branch: [uploaded] is how [api.uploadBatch] settled (with the
    [file_ids] of its response), [fetched] how the [Promise.all] of the
    status requests settled.  As in the single branch, [navigateTo] is the
    one of the render that started the upload, with its view
    [cap_currentView]. *)
Definition handleFilesUploaded_batch (cap_currentView : AppView)
    (parseDate : string -> Date)
    (newFiles : list File) (uploaded : Settlement (list string))
    (fetched : Settlement (list FileStatus.t)) (st : AppState) : AppState :=
  match uploaded with
  | Rejected e => toast (uploadFailed e) st
  | Resolved file_ids =>
      let st :=
        toast {| kind := toast_success;
                 title := ("Uploaded " ++ showNat (List.length file_ids)
                             ++ " files")%string;
                 description := "Processing will begin shortly";
                 action := None |} st in
      let st :=
        fold_left (fun st id => setProcessingFileIds (set_add id) st)
                  file_ids st in
      match fetched with
      | Rejected e => toast (uploadFailed e) st
      | Resolved fileStatuses =>
          let processedFiles :=
            processedFilesFrom parseDate newFiles 0 fileStatuses in
          let st := setFiles (fun prev => prev ++ processedFiles) st in
          navigateTo_closure cap_currentView batch st
      end
  end.

(** ** Logout *)

(** The authentication state of [App] beside [AppState]: the
    [isAuthenticated] flag and the [auth_token] item of [localStorage]. *)
Record Shell := {
  isAuthenticated : bool;
  auth_token : option string;
  appState : AppState
}.

(** [checkAuth]: [setIsAuthenticated(!!token)]. *)
Definition checkAuth (sh : Shell) : Shell :=
  {| isAuthenticated := match auth_token sh with
                        | Some EmptyString | None => false
                        | Some _ => true
                        end;
     auth_token := auth_token sh; appState := appState sh |}.

Definition handleLogin (sh : Shell) : Shell :=
  {| isAuthenticated := true; auth_token := auth_token sh;
     appState := appState sh |}.

Definition handleLogout (sh : Shell) : Shell :=
  {| isAuthenticated := false; auth_token := None;
     appState :=
       setCurrentView upload
         (setCurrentFileId None (setFiles (fun _ => []) (appState sh))) |}.

(** ** The expiry display of the stored-files page *)

(** [expiry.getTime() - now.getTime()]; [None] is NaN. *)
Definition msLeftOf (now : Z) (expiryDate : Date) : option Z :=
  match expiryDate with
  | Some e => Some (e - now)
  | None => None
  end.

Inductive ExpiryStatus := expired | critical | warning | normal.

(** [getExpiryStatus]: every comparison with NaN is false. *)
Definition getExpiryStatus (now : Z) (expiryDate : Date) : ExpiryStatus :=
  match msLeftOf now expiryDate with
  | None => normal
  | Some msLeft =>
      let hoursLeft := msLeft / (1000 * 60 * 60) in
      if msLeft <=? 0 then expired
      else if hoursLeft <=? 6 then critical
      else if hoursLeft <=? 24 then warning
      else normal
  end.

(** [`${z}`] for an integer that is not negative. *)
Definition showZ (z : Z) : string := showNat (Z.to_nat z).

(** [getTimeRemaining]; with NaN every branch test is false and the last
    template prints [NaN]. *)
Definition getTimeRemaining (now : Z) (expiryDate : Date) : string :=
  match msLeftOf now expiryDate with
  | None => "NaNm remaining"
  | Some msLeft =>
      if msLeft <=? 0 then "Expired"
      else
        let hoursLeft := msLeft / (1000 * 60 * 60) in
        let daysLeft := hoursLeft / 24 in
        let minutesLeft :=
          Z.rem msLeft (1000 * 60 * 60) / (1000 * 60) in
        if 0 <? daysLeft then
          (showZ daysLeft ++ "d " ++ showZ (Z.rem hoursLeft 24)
             ++ "h remaining")%string
        else if 0 <? hoursLeft then
          (showZ hoursLeft ++ "h " ++ showZ minutesLeft
             ++ "m remaining")%string
        else (showZ minutesLeft ++ "m remaining")%string
  end.

(** * Properties of the further code *)

(** ** Navigation *)

(** X1: [navigateTo] always ends on the requested view; navigating to the
    view one is on changes nothing (the history is kept), so it is
    idempotent; and of two navigations in a row only the first target is
    remembered: the view one started from is forgotten. *)
Theorem navigateTo_history (st : AppState) (v1 v2 : AppView) :
  currentView (navigateTo v1 st) = v1
  /\ navigateTo v1 (navigateTo v1 st) = navigateTo v1 st
  /\ (currentView st = v1 -> navigateTo v1 st = st)
  /\ (currentView st <> v1 -> v1 <> v2 ->
        currentView (navigateTo v2 (navigateTo v1 st)) = v2
        /\ previousView (navigateTo v2 (navigateTo v1 st)) = v1).
Proof.
  unfold navigateTo.
  destruct (AppView_eqb (currentView st) v1) eqn:E1; simpl.
  - rewrite E1. simpl. apply AppView_eqb_eq in E1.
    repeat split; auto; contradiction.
  - rewrite AppView_eqb_refl. simpl. repeat split; auto.
    + intro H. apply AppView_eqb_eq in H. congruence.
    + destruct (AppView_eqb v1 v2) eqn:E2; [|reflexivity].
      apply AppView_eqb_eq in E2. contradiction.
    + destruct (AppView_eqb v1 v2) eqn:E2; [|reflexivity].
      apply AppView_eqb_eq in E2. contradiction.
Qed.

(** X2: whatever the view state, two [goBack] calls land on [upload] with
    the history reset, and that state is a fixed point of [goBack]. *)
Theorem goBack_twice (st : AppState) :
  currentView (goBack (goBack st)) = upload
  /\ previousView (goBack (goBack st)) = upload
  /\ goBack (goBack (goBack st)) = goBack (goBack st).
Proof.
  unfold goBack; simpl.
  destruct (previousView st), (currentView st); simpl; repeat split.
Qed.

(** The lemma at the first render, navigating to the stored files. *)
Lemma goBack_navigateTo_witness :
  currentView (navigateTo stored initialState) = stored
  /\ previousView (navigateTo stored initialState) = currentView initialState
  /\ currentView (goBack (navigateTo stored initialState))
     = currentView initialState.
Proof.
  apply (goBack_navigateTo stored initialState). discriminate.
Defined.

(** ** Sets of ids *)

Lemma set_has_delete x y s :
  set_has x (set_delete y s) = set_has x s && negb (String.eqb x y).
Proof.
  unfold set_has, set_delete. induction s as [|a s IH]; simpl; [reflexivity|].
  destruct (String.eqb a y) eqn:Ea; simpl; rewrite IH.
  - apply String.eqb_eq in Ea. subst a.
    destruct (String.eqb x y) eqn:Ex; simpl.
    + now rewrite andb_false_r.
    + now rewrite andb_true_r.
  - destruct (String.eqb x a) eqn:Exa; simpl; [|reflexivity].
    apply String.eqb_eq in Exa. subst a. now rewrite Ea.
Qed.

Lemma set_has_add x y s :
  set_has x (set_add y s) = String.eqb x y || set_has x s.
Proof.
  unfold set_add. destruct (set_has y s) eqn:E.
  - destruct (String.eqb x y) eqn:Ex; [|reflexivity].
    apply String.eqb_eq in Ex. now subst.
  - unfold set_has. rewrite existsb_app. simpl.
    now rewrite orb_false_r, orb_comm.
Qed.

(** ** Uploads *)

Lemma find_app_none {A : Type} (p : A -> bool) (l l' : list A) :
  (forall x, In x l -> p x = false) -> find p (l ++ l') = find p l'.
Proof.
  induction l as [|a l IH]; simpl; intro H; [reflexivity|].
  rewrite (H a) by now left. apply IH. intros x Hx. apply H. now right.
Qed.

(** X4: a single upload appends the new job at the end of the list and
    leaves the records before it alone, binds it to the view and to the
    processing screen and adds its id to the polled set, whatever the user
    did while the upload request was pending.  Its [navigateTo] compares
    with and remembers the view [cap_currentView] of the render that
    started the upload, not the view of the moment: from the upload page
    the view becomes [processing] and the remembered view [upload], also
    when the user has meanwhile gone elsewhere.  When no tracked record has
    the id yet, looking the bound job up gives the new record. *)
Theorem upload_binds_new_job cap_currentView uploaded now file_id f st :
  (forall g, In g (files st) -> ProcessedFile.id g <> file_id) ->
  let st' :=
    handleFilesUploaded_single cap_currentView uploaded now file_id f st in
  files st' = files st ++ [initialFile uploaded now file_id f]
  /\ currentFileId st' = Some file_id
  /\ processingFileId st' = Some file_id
  /\ set_has file_id (processingFileIds st') = true
  /\ currentView st' =
       (if AppView_eqb cap_currentView processing
        then currentView st else processing)
  /\ previousView st' =
       (if AppView_eqb cap_currentView processing
        then previousView st else cap_currentView)
  /\ (cap_currentView = upload ->
        currentView st' = processing /\ previousView st' = upload)
  /\ currentFile st' = Some (initialFile uploaded now file_id f).
Proof.
  intros Hfresh st'.
  assert (files st' = files st ++ [initialFile uploaded now file_id f]
          /\ currentFileId st' = Some file_id
          /\ processingFileId st' = Some file_id
          /\ processingFileIds st' = set_add file_id (processingFileIds st)
          /\ currentView st' =
               (if AppView_eqb cap_currentView processing
                then currentView st else processing)
          /\ previousView st' =
               (if AppView_eqb cap_currentView processing
                then previousView st else cap_currentView))
    as (Hf & Hc & Hp & Hs & Hv & Hpv).
  { subst st'. unfold handleFilesUploaded_single, navigateTo_closure.
    destruct (AppView_eqb cap_currentView processing); simpl;
      repeat split; reflexivity. }
  repeat split; try assumption.
  - rewrite Hs, set_has_add, String.eqb_refl. reflexivity.
  - rewrite Hv. now subst cap_currentView.
  - rewrite Hpv. now subst cap_currentView.
  - unfold currentFile. rewrite Hc, Hf, find_app_none.
    + simpl. now rewrite String.eqb_refl.
    + intros g Hg. simpl. apply String.eqb_neq. intro E. symmetry in E.
      now apply (Hfresh g Hg).
Qed.

(** The theorem at the first upload. *)
Lemma upload_binds_new_job_witness :
  files uploaded_J = files initialState ++ [job_J]
  /\ currentFileId uploaded_J = Some "J"
  /\ processingFileId uploaded_J = Some "J"
  /\ set_has "J" (processingFileIds uploaded_J) = true
  /\ currentView uploaded_J =
       (if AppView_eqb upload processing
        then currentView initialState else processing)
  /\ previousView uploaded_J =
       (if AppView_eqb upload processing
        then previousView initialState else upload)
  /\ (upload = upload ->
        currentView uploaded_J = processing
        /\ previousView uploaded_J = upload)
  /\ currentFile uploaded_J = Some job_J.
Proof.
  apply (upload_binds_new_job upload 0 0 "J" a_pdf initialState).
  intros g Hg. destruct Hg.
Defined.

(** The user opened the stored files while the upload request was pending:
    the view the upload remembers is the upload page, so that going back
    from the processing screen does not lead to the stored files. *)
Example upload_settles_on_another_view :
  let st := navigateTo stored initialState in
  let st' := handleFilesUploaded_single upload 0 0 "J" a_pdf st in
  (currentView st, previousView st) = (stored, upload)
  /\ (currentView st', previousView st') = (processing, upload)
  /\ currentView (goBack st') = upload.
Proof. cbv zeta. repeat split. Qed.






(** ** What a poll does to the list and to the polled set *)

Lemma updateFiles_ids parseDate apiFile prev :
  map ProcessedFile.id (updateFiles parseDate apiFile prev)
  = map ProcessedFile.id prev.
Proof.
  unfold updateFiles. rewrite map_map. apply map_ext. intro f.
  destruct (String.eqb (ProcessedFile.id f) (FileStatus.id apiFile)) eqn:E;
    [|reflexivity].
  apply String.eqb_eq in E. now rewrite E.
Qed.

(** X7: a resolved poll never adds, removes or reorders a job: the ids of
    the list are the same before and after, so ids stay unique if they
    were.  In particular the response for a job that is no longer tracked
    (evicted or deleted while the request was pending) leaves the list as
    it is. *)
Theorem poll_keeps_ids parseDate c v apiFile st :
  map ProcessedFile.id (files (pollFile_resolved parseDate c v apiFile st))
  = map ProcessedFile.id (files st)
  /\ (NoDup (map ProcessedFile.id (files st)) ->
      NoDup (map ProcessedFile.id
               (files (pollFile_resolved parseDate c v apiFile st))))
  /\ ((forall g, In g (files st) ->
                 ProcessedFile.id g <> FileStatus.id apiFile) ->
      files (pollFile_resolved parseDate c v apiFile st) = files st).
Proof.
  rewrite pollFile_resolved_files, updateFiles_ids.
  split; [reflexivity|]. split; [auto|].
  intro H. unfold updateFiles. rewrite <- (map_id (files st)) at 2.
  apply map_ext_in. intros f Hf.
  destruct (String.eqb (ProcessedFile.id f) (FileStatus.id apiFile)) eqn:E;
    [|reflexivity].
  apply String.eqb_eq in E. now apply H in Hf.
Qed.

Lemma pollFile_resolved_polled parseDate c v apiFile st :
  processingFileIds (pollFile_resolved parseDate c v apiFile st)
  = if isTerminal (FileStatus.status apiFile)
    then set_delete (FileStatus.id apiFile) (processingFileIds st)
    else processingFileIds st.
Proof.
  unfold pollFile_resolved, isTerminal.
  destruct (FileStatus.status apiFile); cbn; [reflexivity| |].
  - now destruct (is_id c (FileStatus.id apiFile) && AppView_eqb v processing).
  - now destruct (is_id c (FileStatus.id apiFile)).
Qed.

(** X8: the inline poller polls a job until its first terminal snapshot or
    its first failed request.  After a snapshot with status [completed] or
    [error], and after any rejected request, the job's id has left the
    polled set and its interval issues no request any more; a snapshot that
    is still [processing] leaves the polled set as it is; and in every case
    the other jobs stay polled exactly as before. *)
Theorem polled_until_terminal parseDate c v apiFile pending st :
  let st' := pollFile_resolved parseDate c v apiFile st in
  let rt' := {| app := st'; inFlight := pending |} in
  let rj := {| app := pollFile_rejected (FileStatus.id apiFile) st;
               inFlight := pending |} in
  (isTerminal (FileStatus.status apiFile) = true ->
     intervalTick (FileStatus.id apiFile) rt' = rt')
  /\ (isTerminal (FileStatus.status apiFile) = false ->
     processingFileIds st' = processingFileIds st)
  /\ intervalTick (FileStatus.id apiFile) rj = rj
  /\ (forall x, x <> FileStatus.id apiFile ->
        set_has x (processingFileIds st') = set_has x (processingFileIds st)
        /\ set_has x (processingFileIds (app rj))
           = set_has x (processingFileIds st)).
Proof.
  intros st' rt' rj.
  pose proof (pollFile_resolved_polled parseDate c v apiFile st) as Hp.
  fold st' in Hp.
  assert (forall s, set_has (FileStatus.id apiFile)
                      (set_delete (FileStatus.id apiFile) s) = false) as Hgone.
  { intro s. now rewrite set_has_delete, String.eqb_refl, andb_false_r. }
  split; [|split; [|split]].
  - intro Ht. unfold intervalTick. subst rt'. cbn [app].
    rewrite Hp, Ht. cbv iota. now rewrite Hgone.
  - intro Ht. now rewrite Hp, Ht.
  - subst rj. unfold intervalTick, pollFile_rejected.
    cbn [app processingFileIds setProcessingFileIds]. now rewrite Hgone.
  - intros x Hx. apply String.eqb_neq in Hx. split.
    + rewrite Hp. destruct (isTerminal (FileStatus.status apiFile));
        [|reflexivity].
      now rewrite set_has_delete, Hx, andb_true_r.
    + subst rj. unfold pollFile_rejected.
      cbn [app processingFileIds setProcessingFileIds].
      now rewrite set_has_delete, Hx, andb_true_r.
Qed.

(** X9: a snapshot with status [error] never navigates: the view, the
    history, the bound job and the timers stay as they are.  It shows one
    error toast whose description is the snapshot's error, or
    [Unknown error] when that is missing or empty, and it clears
    [processingFileId] exactly when the failed job was the one the poller
    saw there. *)
Theorem failed_job_stays_put parseDate c v apiFile st :
  FileStatus.status apiFile = Status.error ->
  let st' := pollFile_resolved parseDate c v apiFile st in
  currentView st' = currentView st
  /\ previousView st' = previousView st
  /\ currentFileId st' = currentFileId st
  /\ timeouts st' = timeouts st
  /\ toasts st' = toasts st ++ [{| kind := toast_error;
                                  title := "Processing failed";
                                  description := errorDescription apiFile;
                                  action := None |}]
  /\ processingFileId st' =
       (if is_id c (FileStatus.id apiFile) then None
        else processingFileId st)
  /\ (FileStatus.error apiFile = None
      \/ FileStatus.error apiFile = Some EmptyString ->
      errorDescription apiFile = "Unknown error").
Proof.
  intros Hs st'. subst st'. unfold pollFile_resolved. rewrite Hs. cbn.
  destruct (is_id c (FileStatus.id apiFile)); cbn; repeat split;
    intros [H|H]; unfold errorDescription; now rewrite H.
Qed.

(** The theorem at the job [J], failing while the user watches it. *)
Lemma failed_job_stays_put_witness :
  let apiFile := snapshot_J Status.error 40 "1970-01-03T00:00:00.000Z" in
  let st' := pollFile_resolved parseDate_ex (Some "J") processing apiFile
               uploaded_J in
  currentView st' = processing
  /\ processingFileId st' = None
  /\ map description (toasts st')
     = ["Starting text extraction..."; "Unknown error"].
Proof.
  intros apiFile st'.
  destruct (failed_job_stays_put parseDate_ex (Some "J") processing apiFile
              uploaded_J eq_refl) as (Hv & _ & _ & _ & Ht & Hp & _).
  fold st' in Hv, Ht, Hp. split; [exact Hv|]. split; [exact Hp|].
  rewrite Ht. reflexivity.
Defined.

(** X10: the grace timer is not tied to the view: whenever it fires, the
    view becomes the editor with the job bound, whatever the user was
    looking at, and the history is not updated, so [goBack] from there goes
    to the view that was the previous one before.  If the job has left the
    list meanwhile, the lookup of the bound job finds nothing. *)
Theorem grace_timer_fires_anyway fileId fileName st :
  let st' := fireTimeout (AutoNavigate fileId fileName) st in
  currentView st' = editor
  /\ currentFileId st' = Some fileId
  /\ previousView st' = previousView st
  /\ files st' = files st
  /\ currentView (goBack st') =
       (if AppView_eqb (previousView st) editor then upload
        else previousView st)
  /\ ((forall g, In g (files st) -> ProcessedFile.id g <> fileId) ->
      currentFile st' = None).
Proof.
  cbv zeta. cbn. repeat split.
  - unfold goBack. cbn. now destruct (AppView_eqb (previousView st) editor).
  - intro H. unfold currentFile. cbn.
    destruct (find (fun f => String.eqb fileId (ProcessedFile.id f))
                   (files st)) as [g|] eqn:E; [|reflexivity].
    apply find_some in E as [Hin Heq]. apply String.eqb_eq in Heq.
    symmetry in Heq. now apply H in Hin.
Qed.

(** ** Manual delete *)

Lemma find_none_iff {A : Type} (p : A -> bool) (l : list A) :
  find p l = None <-> forall x, In x l -> p x = false.
Proof.
  split.
  - intros H x Hx. now apply (find_none p l H).
  - induction l as [|a l IH]; simpl; intro H; [reflexivity|].
    rewrite (H a) by now left. apply IH. intros x Hx. apply H. now right.
Qed.

(** X11: a delete that the backend rejects changes nothing in the state;
    the handler only reports it, with the server's detail or else the
    error's message as description.  A delete that succeeds removes every
    record with the id and nothing else, keeping the order of the others;
    when the deleted job is the one bound to the view it shows the upload
    view and clears the binding, so the lookup of the bound job finds
    nothing, otherwise view and binding stay; and when no record has the
    id the list is unchanged. *)
Theorem deleteFile_spec cap fileId e st :
  fst (deleteFile cap (Rejected e) fileId st) = st
  /\ notice_description (snd (deleteFile cap (Rejected e) fileId st))
     = js_or (detail e) (message e)
  /\ (let st' := fst (deleteFile cap (Resolved tt) fileId st) in
      files st'
      = filter (fun f => negb (String.eqb (ProcessedFile.id f) fileId))
               (files st)
      /\ (forall g, In g (files st') <->
                    In g (files st) /\ ProcessedFile.id g <> fileId)
      /\ (cap = Some fileId ->
            currentView st' = upload /\ currentFileId st' = None
            /\ currentFile st' = None)
      /\ (cap <> Some fileId ->
            currentView st' = currentView st
            /\ currentFileId st' = currentFileId st)
      /\ previousView st' = previousView st
      /\ processingFileIds st' = processingFileIds st
      /\ ((forall g, In g (files st) -> ProcessedFile.id g <> fileId) ->
          files st' = files st)).
Proof.
  split; [reflexivity|]. split; [reflexivity|].
  cbv zeta.
  set (keep := fun f => negb (String.eqb (ProcessedFile.id f) fileId)).
  set (st' := fst (deleteFile cap (Resolved tt) fileId st)).
  assert (files st' = filter keep (files st)
          /\ currentView st' =
               (if is_id cap fileId then upload else currentView st)
          /\ currentFileId st' =
               (if is_id cap fileId then None else currentFileId st)
          /\ previousView st' = previousView st
          /\ processingFileIds st' = processingFileIds st)
    as (Hf & Hv & Hc & Hp & Hs).
  { subst st'. unfold deleteFile. cbn [fst].
    destruct (is_id cap fileId); cbn; repeat split. }
  clearbody st'. rewrite Hf, Hv, Hc, Hp, Hs.
  split; [reflexivity|]. split; [|split; [|split; [|split; [|split]]]];
    try reflexivity.
  - intro g. unfold keep. now rewrite filter_In, negb_true_iff, String.eqb_neq.
  - intro E. apply is_id_true in E. rewrite E. repeat split.
    unfold currentFile. rewrite Hc, Hf, E. cbn. apply find_none_iff.
    intros x Hx. reflexivity.
  - intro Hne. destruct (is_id cap fileId) eqn:E; [|now split].
    apply is_id_true in E. contradiction.
  - intro H. rewrite <- (filter_all (files st)) at 2. apply filter_ext_in.
    intros f Hf'. unfold keep. apply negb_true_iff, String.eqb_neq.
    now apply H.
Qed.

(** ** Text updates *)

(** X12: saving a text touches only the text and the three counts of the
    records with the given id: the ids of the list, and the expiry, status,
    progress and original file of every record, are the same before and
    after, records with another id are untouched, and nothing of the
    navigation changes.  When the backend rejects the save, the state is
    unchanged and a notice is returned. *)
Theorem updateFileText_spec fileId newText e st :
  (let st' := fst (updateFileText (Resolved tt) fileId newText st) in
   map (fun f => (ProcessedFile.id f, ProcessedFile.expiryDate f,
                  ProcessedFile.status f, ProcessedFile.progress f,
                  ProcessedFile.originalFile f)) (files st')
   = map (fun f => (ProcessedFile.id f, ProcessedFile.expiryDate f,
                    ProcessedFile.status f, ProcessedFile.progress f,
                    ProcessedFile.originalFile f)) (files st)
   /\ (forall g, In g (files st') -> ProcessedFile.id g = fileId ->
         ProcessedFile.extractedText g = newText
         /\ ProcessedFile.charCount g = Z.of_nat (String.length newText)
         /\ ProcessedFile.wordCount g = Z.of_nat (wordCountOf newText)
         /\ ProcessedFile.lineCount g = Z.of_nat (lineCountOf newText))
   /\ (forall g, ProcessedFile.id g <> fileId ->
         (In g (files st') <-> In g (files st)))
   /\ st' = setFiles (fun _ => files st') st
   /\ snd (updateFileText (Resolved tt) fileId newText st) = None)
  /\ fst (updateFileText (Rejected e) fileId newText st) = st
  /\ snd (updateFileText (Rejected e) fileId newText st)
     = Some {| notice_kind := toast_error;
               notice_title := "Failed to save text";
               notice_description := js_or (detail e) (message e) |}.
Proof.
  split; [|split; reflexivity]. cbv zeta. unfold updateFileText. cbn.
  split; [|split; [|split; [|split; reflexivity]]].
  - rewrite map_map. apply map_ext. intro f.
    now destruct (String.eqb (ProcessedFile.id f) fileId).
  - intros g Hg Eg. apply in_map_iff in Hg as [f [Ef Hf]].
    destruct (String.eqb (ProcessedFile.id f) fileId) eqn:E.
    + subst g. repeat split.
    + subst g. apply String.eqb_neq in E. contradiction.
  - intros g Hne. rewrite in_map_iff. split.
    + intros [f [Ef Hf]].
      destruct (String.eqb (ProcessedFile.id f) fileId) eqn:E.
      * subst g. cbn in Hne. apply String.eqb_eq in E. contradiction.
      * now subst g.
    + intro Hg. exists g. apply String.eqb_neq in Hne. now rewrite Hne.
Qed.

(** ** The counts of a text *)

(** Number of word starts in [s]; [in_word] tells that the character
    before [s] belongs to a word. *)
Fixpoint wordStarts (in_word : bool) (s : string) : nat :=
  match s with
  | EmptyString => 0
  | String c rest =>
      if isWhiteSpace c then wordStarts false rest
      else (if in_word then 0 else 1) + wordStarts true rest
  end.

(** Number of occurrences of a character in a text. *)
Fixpoint occurrences (c : ascii) (s : string) : nat :=
  match s with
  | EmptyString => 0
  | String d rest => (if Ascii.eqb d c then 1 else 0) + occurrences c rest
  end.

Lemma append_nonempty (cur : string) (c : ascii) :
  (cur ++ String c EmptyString)%string <> EmptyString.
Proof. destruct cur; discriminate. Qed.

Lemma splitWs_words prev_ws cur s :
  (prev_ws = true -> cur = EmptyString) ->
  List.length (filter (fun word => (0 <? String.length word)%nat)
                      (splitWs prev_ws cur s))
  = match cur with
    | EmptyString => wordStarts false s
    | _ => S (wordStarts true s)
    end.
Proof.
  revert prev_ws cur. induction s as [|c rest IH]; intros prev_ws cur Hinv.
  - simpl. now destruct cur.
  - simpl. destruct (isWhiteSpace c).
    + destruct prev_ws.
      * rewrite (Hinv eq_refl). now rewrite (IH true EmptyString).
      * pose proof (IH true EmptyString (fun _ => eq_refl)) as IH'.
        destruct cur; simpl; now rewrite IH'.
    + rewrite (IH false) by discriminate.
      pose proof (append_nonempty cur c) as Hne.
      destruct (cur ++ String c EmptyString)%string eqn:E; [contradiction|].
      now destruct cur.
Qed.

Lemma wordCountOf_wordStarts s : wordCountOf s = wordStarts false s.
Proof. unfold wordCountOf. now rewrite splitWs_words. Qed.

Lemma wordStarts_le in_word s :
  (2 * wordStarts in_word s <= String.length s + (if in_word then 0 else 1))%nat.
Proof.
  revert in_word. induction s as [|c rest IH]; intro in_word; simpl.
  - destruct in_word; lia.
  - destruct (isWhiteSpace c).
    + specialize (IH false). simpl in IH. destruct in_word; lia.
    + specialize (IH true). simpl in IH. destruct in_word; lia.
Qed.

Lemma wordStarts_append in_word a c b :
  isWhiteSpace c = true ->
  wordStarts in_word (a ++ String c b)
  = (wordStarts in_word a + wordStarts false b)%nat.
Proof.
  intro Hc. revert in_word. induction a as [|d a IH]; intro in_word; simpl.
  - now rewrite Hc.
  - destruct (isWhiteSpace d); rewrite IH; lia.
Qed.

Lemma splitOn_length sep cur s :
  List.length (splitOn sep cur s) = S (occurrences sep s).
Proof.
  revert cur. induction s as [|c rest IH]; intro cur; simpl; [reflexivity|].
  destruct (Ascii.eqb c sep); simpl; now rewrite IH.
Qed.

Lemma occurrences_append c a b :
  occurrences c (a ++ b) = (occurrences c a + occurrences c b)%nat.
Proof. induction a as [|d a IH]; simpl; [reflexivity|]. rewrite IH. lia. Qed.

(** X13: the line count of a text is one more than the number of its line
    feeds: the empty text has one line, a text that ends in a line feed
    counts the empty line after it, and joining two texts with a line feed
    adds their line counts. *)
Theorem lineCount_spec (a b : string) :
  lineCountOf a = S (occurrences newline a)
  /\ lineCountOf EmptyString = 1%nat
  /\ lineCountOf (a ++ String newline EmptyString) = S (lineCountOf a)
  /\ lineCountOf (a ++ String newline b)
     = (lineCountOf a + lineCountOf b)%nat.
Proof.
  unfold lineCountOf. rewrite !splitOn_length, !occurrences_append. simpl.
  change (Ascii.eqb newline newline) with true. repeat split; lia.
Qed.

(** X14: the word count of a text is the number of its maximal runs of
    characters that are not white space.  Hence white space at either end
    and the length of a separator do not matter, joining two texts with a
    white-space character adds their word counts, a text of white space
    only has no word, and a text of [n] characters has at most
    [(n + 1) / 2] words. *)
Theorem wordCount_spec (a b : string) (c : ascii) :
  isWhiteSpace c = true ->
  wordCountOf a = wordStarts false a
  /\ wordCountOf (a ++ String c b) = (wordCountOf a + wordCountOf b)%nat
  /\ wordCountOf (String c a) = wordCountOf a
  /\ wordCountOf (a ++ String c EmptyString) = wordCountOf a
  /\ wordCountOf (a ++ String c (String c b)) = wordCountOf (a ++ String c b)
  /\ wordCountOf EmptyString = 0%nat
  /\ (2 * wordCountOf a <= charCountOf a + 1)%nat.
Proof.
  intro Hc. rewrite !wordCountOf_wordStarts.
  rewrite !(wordStarts_append _ _ c _ Hc). simpl. rewrite Hc.
  repeat split; try lia.
  pose proof (wordStarts_le false a). unfold charCountOf. simpl in *. lia.
Qed.

(** The theorem at a space between two texts. *)
Lemma wordCount_spec_witness :
  wordCountOf ("two words " ++ String " " "and  three more")
  = (wordCountOf "two words " + wordCountOf "and  three more")%nat
  /\ wordCountOf "two words " = 2%nat
  /\ wordCountOf "and  three more" = 3%nat.
Proof.
  destruct (wordCount_spec "two words " "and  three more" " " eq_refl)
    as (_ & H & _).
  split; [exact H|]. split; reflexivity.
Defined.

(** ** More on the eviction sweep *)

(** A sweep that evicts none of the records it visits changes nothing. *)
Lemma checkExpiredFiles_none {S : Type} del (cb : string -> S -> S) now l st :
  (forall f, In f l -> hits del now f = false) ->
  checkExpiredFiles del cb now l st = st.
Proof.
  revert st. induction l as [|g l IH]; intros st H; [reflexivity|].
  rewrite checkExpiredFiles_cons, (H g) by now left.
  apply IH. intros f Hf. apply H. now right.
Qed.

(** The record the sweep kept is not one it evicts. *)
Lemma kept_not_hit cap del now st f :
  In f (files (autoCleanup cap del now st)) -> hits del now f = false.
Proof.
  intro H. apply autoCleanup_In in H as [Hin He].
  destruct (hits del now f) eqn:Hh; [|reflexivity].
  apply hits_true in Hh as [Hexp Hd].
  assert (evicts del now (files st) (ProcessedFile.id f) = true) as E.
  { apply evicts_true. exists f. repeat split; try assumption.
    unfold isExpired. now apply date_ge_true. }
  congruence.
Qed.

(** X15: a sweep in which no tracked job is both expired and deletable
    changes nothing at all, neither the list nor the view: so on an empty
    list, while no job has expired, and while the backend rejects every
    delete. *)
Theorem sweep_without_eviction cap del now st :
  (forall f, In f (files st) ->
             isExpired now f = false \/ del (ProcessedFile.id f) = false) ->
  autoCleanup cap del now st = st.
Proof.
  intro H. unfold autoCleanup. apply checkExpiredFiles_none.
  intros f Hf. unfold hits. destruct (H f Hf) as [E|E]; rewrite E.
  - reflexivity.
  - apply andb_false_r.
Qed.

(** The theorem at the job [J] one second before it expires. *)
Lemma sweep_without_eviction_witness :
  autoCleanup (Some "J") (always true) (172800000 - 1000) uploaded_J
  = uploaded_J.
Proof.
  apply (sweep_without_eviction (Some "J") (always true)
           (172800000 - 1000) uploaded_J).
  intros f [Hf|[]]. subst f. left. reflexivity.
Defined.

(** X16: a second sweep at the same time and with the same delete outcomes
    changes nothing, whatever bound job the callback of either sweep holds:
    every record the first sweep kept is kept again, and the view it left
    is left alone. *)
Theorem sweep_twice cap cap' del now st :
  autoCleanup cap' del now (autoCleanup cap del now st)
  = autoCleanup cap del now st.
Proof.
  unfold autoCleanup at 1. apply checkExpiredFiles_none.
  intros f Hf. now apply kept_not_hit in Hf.
Qed.

(** Filtering by a test on the key commutes with taking the keys. *)
Lemma map_filter_key {A B : Type} (key : A -> B) (q : B -> bool)
    (l : list A) :
  map key (filter (fun x => q (key x)) l) = filter q (map key l).
Proof.
  induction l as [|a l IH]; [reflexivity|].
  cbn. destruct (q (key a)); cbn; now rewrite IH.
Qed.

(** X17: without assuming unique ids, the sweep keeps a record exactly when
    no record with the same id is expired and deleted: it removes by id,
    so a record that has not expired goes together with an expired record
    of the same id.  The records it keeps stay in their order, and ids that
    were unique stay unique. *)
Theorem sweep_by_id cap del now st :
  (forall f, In f (files (autoCleanup cap del now st)) <->
     In f (files st)
     /\ ~ exists g, In g (files st)
                    /\ ProcessedFile.id g = ProcessedFile.id f
                    /\ isExpired now g = true
                    /\ del (ProcessedFile.id f) = true)
  /\ files (autoCleanup cap del now st)
     = filter (fun f => negb (evicts del now (files st) (ProcessedFile.id f)))
              (files st)
  /\ (NoDup (map ProcessedFile.id (files st)) ->
      NoDup (map ProcessedFile.id (files (autoCleanup cap del now st)))).
Proof.
  destruct (checkExpiredFiles_app del now cap (files st) st)
    as (Hf & _).
  fold (autoCleanup cap del now st) in Hf.
  split; [|split; [exact Hf|]].
  - intro f. rewrite autoCleanup_In, <- evicts_true.
    destruct (evicts del now (files st) (ProcessedFile.id f)); split;
      intros [H1 H2]; split; auto; congruence.
  - intro Hnd. rewrite Hf.
    rewrite (map_filter_key ProcessedFile.id
               (fun x => negb (evicts del now (files st) x))).
    now apply NoDup_filter.
Qed.

(** X18: the sweep does not touch the polled set or [processingFileId]:
    a job that is evicted while it is being polled stays in
    [processingFileIds], and the next tick of its interval still issues a
    request for it. *)
Theorem sweep_keeps_polling cap del now st pending fileId :
  set_has fileId (processingFileIds st) = true ->
  let st' := autoCleanup cap del now st in
  processingFileIds st' = processingFileIds st
  /\ processingFileId st' = processingFileId st
  /\ toasts st' = toasts st
  /\ timeouts st' = timeouts st
  /\ pendingFor fileId
       (intervalTick fileId {| app := st'; inFlight := pending |})
     = S (pendingFor fileId {| app := st'; inFlight := pending |}).
Proof.
  intros Hs st'.
  destruct (checkExpiredFiles_app del now cap (files st) st)
    as (_ & _ & _ & _ & Hp & Hps & Ht & Hto).
  fold (autoCleanup cap del now st) in Hp, Hps, Ht, Hto.
  fold st' in Hp, Hps, Ht, Hto. repeat split; try assumption.
  unfold intervalTick. cbn [app]. rewrite Hps, Hs. apply pendingFor_begin.
Qed.

(** The theorem at the job [J], evicted while it is still processing. *)
Lemma sweep_keeps_polling_witness :
  let st' := autoCleanup (Some "J") (always true) 172800000 uploaded_J in
  files st' = []
  /\ processingFileIds st' = ["J"]
  /\ pendingFor "J" (intervalTick "J" {| app := st'; inFlight := [] |})
     = 1%nat.
Proof.
  intro st'.
  destruct (sweep_keeps_polling (Some "J") (always true) 172800000
              uploaded_J [] "J"
              eq_refl) as (Hs & _ & _ & _ & Hp).
  fold st' in Hs, Hp. split; [reflexivity|]. split; [exact Hs|exact Hp].
Defined.

(** ** The sweep while the user acts *)

(** After the job [J], a second job [K] is uploaded one second later from
    the upload page; [K] is then the bound job. *)
Definition uploaded_J_K : AppState :=
  handleFilesUploaded_single upload 1000 1000 "K" a_pdf (goBack uploaded_J).

(** X19: one awaited delete of the sweep, settling on whatever state the
    handlers have produced meanwhile, keeps the bound job a tracked one if
    it was one, provided that the callback of the sweep holds the awaited
    job as the bound one whenever that job is the bound one by then: so
    whenever the awaited job is not the bound one, and whenever the binding
    has not changed since the sweep started. *)
Theorem sweep_step_keeps_binding resolved sw st :
  (forall j, currentFileId st = Some j ->
             exists f, In f (files st) /\ ProcessedFile.id f = j) ->
  (forall file rest,
     sweep_awaits (sweep_now sw) (sweep_files sw) = file :: rest ->
     currentFileId st = Some (ProcessedFile.id file) ->
     sweep_currentFileId sw = Some (ProcessedFile.id file)) ->
  forall j, currentFileId (snd (sweep_resume resolved sw st)) = Some j ->
            exists f, In f (files (snd (sweep_resume resolved sw st)))
                      /\ ProcessedFile.id f = j.
Proof.
  intros Hinv Hcap j.
  destruct (sweep_awaits (sweep_now sw) (sweep_files sw))
    as [|file rest] eqn:Ea.
  - unfold sweep_resume. rewrite Ea. apply Hinv.
  - rewrite (sweep_resume_awaited resolved sw st file rest Ea).
    destruct resolved; [|apply Hinv]. cbn [snd].
    destruct (is_id (sweep_currentFileId sw) (ProcessedFile.id file)) eqn:E.
    + unfold onFileDeleted. rewrite E. discriminate.
    + destruct (onFileDeleted_other _ _ st E) as (_ & Hc & Hf).
      rewrite Hc, Hf. intro Hj. destruct (Hinv j Hj) as (f & Hin & Eid).
      exists f. split; [|assumption].
      apply filter_In. split; [assumption|].
      apply negb_true_iff, String.eqb_neq. intro Ef.
      assert (is_id (sweep_currentFileId sw) (ProcessedFile.id file) = true)
        as E'.
      { apply is_id_true. apply (Hcap file rest eq_refl). congruence. }
      congruence.
Qed.

(** The theorem at the sweep that evicts [J] while [K] is the bound job. *)
Lemma sweep_step_keeps_binding_witness :
  exists f,
    In f (files (snd (sweep_resume true (sweep_begin 172800000 uploaded_J_K)
                                   uploaded_J_K)))
    /\ ProcessedFile.id f = "K".
Proof.
  apply (sweep_step_keeps_binding true (sweep_begin 172800000 uploaded_J_K)
           uploaded_J_K).
  - intros j Hj. exists (initialFile 1000 1000 "K" a_pdf).
    split; [right; left; reflexivity|]. inversion Hj. reflexivity.
  - intros file rest Ha Hc. inversion Ha; subst. discriminate Hc.
  - reflexivity.
Defined.

(** C7: the callback of the sweep resets the view when the evicted job is
    the [currentFileId] of its closure, which is the bound job of the
    render that started the sweep and not the bound job at the time the
    delete settles.  A batch upload from the upload page leaves the
    completed job [J] on the batch page with no job bound.  The sweep that
    starts when [J] expires awaits the delete of [J]; while it waits the
    user presses [View] on [J] (the batch page offers it for every
    completed record), which binds [J] and shows the editor.  When the
    delete resolves, the record is removed, the view stays [editor] and
    the bound job stays [J]: the view refers to a job that is gone, and the
    lookup of the bound job finds nothing.  The render after the click
    started a sweep of its own, whose callback does hold [J] and which
    awaits a second delete of [J]: if the backend rejects it, the job being
    deleted already, the state stays as it is, and every later sweep walks
    an empty list; only if that second delete resolves as well is the view
    reset. *)
Theorem sweep_closure_outlives_binding :
  let st0 :=
    handleFilesUploaded_batch upload parseDate_ex [a_pdf] (Resolved ["J"])
      (Resolved [snapshot_J Status.completed 100 "1970-01-03T00:00:00.000Z"])
      initialState in
  let sw := sweep_begin 172800000 st0 in
  let st1 := onSelectFile "J" st0 in
  let st2 := snd (sweep_resume true sw st1) in
  (currentView st0, currentFileId st0) = (batch, None)
  /\ map (fun f => (ProcessedFile.id f, ProcessedFile.status f,
                    ProcessedFile.expiryDate f)) (files st0)
     = [("J", Status.completed, Some 172800000)]
  /\ sweep_currentFileId sw = None
  /\ map ProcessedFile.id (sweep_awaits (sweep_now sw) (sweep_files sw))
     = ["J"]
  /\ (currentView st1, currentFileId st1) = (editor, Some "J")
  /\ map ProcessedFile.id (files st1) = ["J"]
  /\ (currentView st2, currentFileId st2, files st2)
     = (editor, Some "J", [])
  /\ currentFile st2 = None
  /\ snd (sweep_resume false (sweep_begin 172800000 st1) st2) = st2
  /\ (forall cap deleteFile now, autoCleanup cap deleteFile now st2 = st2)
  /\ (let st3 := snd (sweep_resume true (sweep_begin 172800000 st1) st2) in
      (currentView st3, currentFileId st3) = (upload, None)).
Proof. cbv zeta. repeat split. Qed.

(** ** More on the polling hook *)

Definition isTick (ev : Event) : bool :=
  match ev with
  | Tick => true
  | _ => false
  end.

(** The bounds the retry counter keeps, beside [flag_counts]. *)
Definition retry_bounded {Host : Type} (p : Poller Host) : Prop :=
  flag_counts p
  /\ (retryCount (refs p) <= maxRetries)%nat
  /\ (retryCount (refs p) = maxRetries ->
      pending p = 0%nat /\ intervalRef (refs p) = None).

Section PollingMore.

Context {Host : Type}.
Variable onUpdate : @Callback Host FileStatus.t.
Variable onComplete : option (@Callback Host FileStatus.t).
Variable onError : option (@Callback Host Error).

Abbreviation settled' := (pollFileStatus_settled onUpdate onComplete onError).
Abbreviation step' := (step onUpdate onComplete onError).
Abbreviation run' := (run onUpdate onComplete onError).

Lemma run_cons ev evs (p : Poller Host) :
  run' (ev :: evs) p = run' evs (step' p ev).
Proof. reflexivity. Qed.

(** A hook with no interval and no pending request does nothing. *)
Lemma idle_step (p : Poller Host) ev :
  intervalRef (refs p) = None -> pending p = 0%nat -> step' p ev = p.
Proof.
  intros Hi Hp. destruct ev as [|fetched|]; cbn.
  - now rewrite Hi.
  - unfold pollFileStatus_resume. now rewrite Hp.
  - unfold cleanup, stopInterval. rewrite Hi. now destruct p.
Qed.

(** X21: a hook that is disabled, or that has no file id, is inert: its
    effect issues no request and arms no interval, and whatever happens
    afterwards it stays in that state, with no request made and the
    caller's state untouched. *)
Theorem disabled_hook_is_inert fileId enabled timer (h : Host) evs :
  enabled = false \/ fileId = EmptyString ->
  let p := mount fileId enabled timer h in
  run' evs p = p
  /\ attempts p = 0%nat
  /\ pending p = 0%nat
  /\ intervalRef (refs p) = None
  /\ host p = h.
Proof.
  intros Hoff p.
  assert (negb enabled || String.eqb fileId EmptyString = true) as E.
  { destruct Hoff as [->| ->]; [reflexivity|].
    rewrite String.eqb_refl. apply orb_true_r. }
  assert (attempts p = 0%nat /\ pending p = 0%nat
          /\ intervalRef (refs p) = None /\ host p = h)
    as (Ha & Hp & Hi & Hh).
  { subst p. unfold mount. rewrite E. repeat split. }
  clearbody p. repeat split; try assumption.
  induction evs as [|ev evs IH]; [reflexivity|].
  rewrite run_cons, idle_step; assumption.
Qed.

(** What the [try] block leaves in the retry counter: 0 when it ran to
    its end, and 0 or the old value when a callback threw. *)
Lemma try_block_retry file ps h :
  match completion_of (try_block onUpdate onComplete file ps h) with
  | Returned _ =>
      retryCount (refs_of (try_block onUpdate onComplete file ps h)) = 0%nat
  | Thrown _ =>
      retryCount (refs_of (try_block onUpdate onComplete file ps h)) = 0%nat
      \/ refs_of (try_block onUpdate onComplete file ps h) = ps
  end.
Proof.
  unfold try_block. destruct (onUpdate file h) as [h1 [u|e]]; [|now right].
  destruct (isTerminal (FileStatus.status file)); [|reflexivity].
  destruct (stopInterval_rest (setRetryCount 0 ps)) as [_ Hr].
  destruct (Status.eqb (FileStatus.status file) Status.completed),
           onComplete as [oc|]; try exact Hr.
  destruct (oc file h1) as [h2 [u'|e]]; cbn; [exact Hr | left; exact Hr].
Qed.

(** A settled request raises the counter by one at most, and a counter at
    the ceiling comes with a cleared interval. *)
Lemma settled_retry fetched ps h :
  let r := refs_of (settled' fetched ps h) in
  (retryCount r <= S (retryCount ps))%nat
  /\ ((maxRetries <= retryCount r)%nat -> intervalRef r = None).
Proof.
  assert (forall e ps0 h0,
            let r := finally_block (refs_of (catch_block onError e ps0 h0)) in
            retryCount r = S (retryCount ps0)
            /\ ((maxRetries <= retryCount r)%nat -> intervalRef r = None))
    as Hcatch.
  { intros e ps0 h0 r.
    destruct (catch_block_spec onError e ps0 h0) as (Hc & _ & Hi & _).
    subst r. cbn [finally_block setIsPollingRef retryCount intervalRef].
    rewrite Hc, Hi. split; [reflexivity|]. intro Hle.
    apply Nat.leb_le in Hle. now rewrite Hle. }
  cbv zeta. unfold pollFileStatus_settled. destruct fetched as [file|e].
  - pose proof (try_block_retry file ps h) as Ht.
    destruct (try_block onUpdate onComplete file ps h) as [[ps1 h1] [u|e]].
    + cbn in *. rewrite Ht. unfold maxRetries. split; lia.
    + cbn in Ht. specialize (Hcatch e ps1 h1).
      destruct (catch_block onError e ps1 h1) as [[ps2 h2] c].
      cbn in *. destruct Hcatch as [Hc Hi]. split; [|exact Hi].
      destruct Ht as [Ht|Ht]; [rewrite Hc, Ht; lia | subst ps1; lia].
  - specialize (Hcatch e ps h).
    destruct (catch_block onError e ps h) as [[ps2 h2] c].
    cbn in *. destruct Hcatch as [Hc Hi]. split; [lia | exact Hi].
Qed.

Lemma step_retry_bounded (p : Poller Host) ev :
  retry_bounded p -> retry_bounded (step' p ev).
Proof.
  intros (Hf & Hle & Hmax).
  split; [now apply step_flag_counts|].
  destruct ev as [|fetched|]; cbn.
  - assert (retryCount (refs (pollFileStatus_begin p)) = retryCount (refs p)
            /\ (intervalRef (refs p) <> None ->
                retryCount (refs p) <> maxRetries)) as [Hb Hne].
    { split.
      - unfold pollFileStatus_begin. now destruct (isPollingRef (refs p)).
      - intros Harmed E. destruct (Hmax E) as [_ Hn]. contradiction. }
    destruct (intervalRef (refs p)) eqn:Hi.
    + rewrite Hb. split; [assumption|]. intro E. exfalso.
      now apply Hne.
    + split; [assumption|]. intro E. destruct (Hmax E). now split.
  - destruct (pending p) as [|n] eqn:Hp.
    + unfold pollFileStatus_resume. rewrite Hp.
      split; [assumption|]. intro E. destruct (Hmax E). now split.
    + destruct (resume_fields onUpdate onComplete onError fetched p n Hp)
        as (Hr & _ & Hn & _).
      rewrite Hr, Hn.
      destruct (settled_retry fetched (refs p) (host p)) as [Hs Hstop].
      assert (retryCount (refs p) <> maxRetries) as Hne.
      { intro E. destruct (Hmax E) as [H0 _]. congruence. }
      assert (n = 0%nat) as ->.
      { unfold flag_counts in Hf. rewrite Hp in Hf.
        destruct (isPollingRef (refs p)); congruence. }
      split; [lia|]. intro E. split; [reflexivity|].
      apply Hstop. lia.
  - destruct (stopInterval_rest (refs p)) as [_ Hr]. rewrite Hr.
    split; [assumption|]. intro E. destruct (Hmax E) as [H0 _].
    split; [assumption | apply stopInterval_None].
Qed.

Lemma mount_retry_bounded fileId enabled timer (h : Host) :
  retry_bounded (mount fileId enabled timer h).
Proof.
  split; [apply mount_flag_counts|].
  assert (retryCount (refs (mount fileId enabled timer h)) = 0%nat) as E.
  { unfold mount.
    now destruct (negb enabled || String.eqb fileId EmptyString). }
  rewrite E. unfold maxRetries. split; [lia | discriminate].
Qed.

Lemma run_retry_bounded evs (p : Poller Host) :
  retry_bounded p -> retry_bounded (run' evs p).
Proof.
  revert p. induction evs as [|ev evs IH]; intros p H; [assumption|].
  rewrite run_cons. apply IH. now apply step_retry_bounded.
Qed.

(** X22: the retry counter never exceeds the ceiling of 3, whatever the
    requests, the callbacks and the order of events do, and while the
    interval is armed it is below 3: the hook never polls on after three
    failures in a row. *)
Theorem retry_counter_bounded fileId enabled timer (h : Host) evs :
  let p := run' evs (mount fileId enabled timer h) in
  (retryCount (refs p) <= maxRetries)%nat
  /\ (intervalRef (refs p) <> None ->
      (retryCount (refs p) < maxRetries)%nat).
Proof.
  intro p.
  destruct (run_retry_bounded evs _
              (mount_retry_bounded fileId enabled timer h))
    as (_ & Hle & Hmax).
  fold p in Hle, Hmax. split; [assumption|]. intro Harmed.
  destruct (Nat.eq_dec (retryCount (refs p)) maxRetries) as [E|E];
    [destruct (Hmax E); contradiction | lia].
Qed.

(** Every request but the first is issued by a tick. *)
Lemma attempts_step (p : Poller Host) ev :
  (attempts (step' p ev) <= attempts p + (if isTick ev then 1 else 0))%nat.
Proof.
  destruct ev as [|fetched|]; cbn.
  - destruct (intervalRef (refs p)); [|lia].
    unfold pollFileStatus_begin. destruct (isPollingRef (refs p)); cbn; lia.
  - destruct (pending p) as [|n] eqn:Hp.
    + unfold pollFileStatus_resume. rewrite Hp. lia.
    + destruct (resume_fields onUpdate onComplete onError fetched p n Hp)
        as (_ & _ & _ & Ha).
      rewrite Ha. lia.
  - lia.
Qed.

Lemma attempts_run evs (p : Poller Host) :
  (attempts (run' evs p)
   <= attempts p + List.length (filter isTick evs))%nat.
Proof.
  revert p. induction evs as [|ev evs IH]; intro p; [cbn; lia|].
  rewrite run_cons. specialize (IH (step' p ev)).
  pose proof (attempts_step p ev). cbn [filter].
  destruct (isTick ev); cbn [List.length]; lia.
Qed.

(** X23: the hook issues at most one request at its mount and at most one
    per tick of its interval: after any events, the number of requests made
    is at most one more than the number of ticks among them. *)
Theorem attempts_bounded_by_ticks fileId enabled timer (h : Host) evs :
  (attempts (mount fileId enabled timer h) <= 1)%nat
  /\ (attempts (run' evs (mount fileId enabled timer h))
      <= 1 + List.length (filter isTick evs))%nat.
Proof.
  assert (attempts (mount fileId enabled timer h) <= 1)%nat as Hm.
  { unfold mount.
    destruct (negb enabled || String.eqb fileId EmptyString); cbn; lia. }
  split; [assumption|].
  pose proof (attempts_run evs (mount fileId enabled timer h)). lia.
Qed.

(** X24: the cleanup of the effect stops the interval, so no request is
    issued afterwards, but it does not cancel the request that is pending:
    when that request resolves after the cleanup, its snapshot is still
    handed to [onUpdate]. *)
Theorem response_after_cleanup (p : Poller Host) file h1 :
  pending p <> 0%nat ->
  onUpdate file (host p) = (h1, Returned tt) ->
  isTerminal (FileStatus.status file) = false ->
  (forall evs, attempts (run' evs (step' p Cleanup)) = attempts p)
  /\ intervalRef (refs (step' p Cleanup)) = None
  /\ pending (step' p Cleanup) = pending p
  /\ host (step' (step' p Cleanup) (Settled (Returned file))) = h1.
Proof.
  intros Hp Hu Ht.
  assert (intervalRef (refs (step' p Cleanup)) = None) as Hi
    by apply stopInterval_None.
  split; [|split; [exact Hi|split; [reflexivity|]]].
  - intro evs.
    destruct (stopped_stays onUpdate onComplete onError _ evs Hi) as [_ Ha].
    exact Ha.
  - destruct (pending p) as [|n] eqn:En; [contradiction|].
    assert (pending (step' p Cleanup) = S n) as En' by exact En.
    destruct (resume_fields onUpdate onComplete onError (Returned file)
                (step' p Cleanup) n En') as (_ & Hh & _).
    change (step' (step' p Cleanup) (Settled (Returned file)))
      with (pollFileStatus_resume onUpdate onComplete onError
              (Returned file) (step' p Cleanup)).
    rewrite Hh. cbn [step cleanup refs host].
    assert (FileStatus.status file = Status.processing) as Es.
    { destruct (FileStatus.status file); [reflexivity | discriminate..]. }
    assert (forall oc, onComplete = Some oc ->
              FileStatus.status file = Status.completed ->
              snd (oc file h1) = Returned tt) as Hoc.
    { intros oc _ E. congruence. }
    destruct (try_block_spec onUpdate onComplete file
                (stopInterval (refs p)) (host p) h1 Hu Hoc)
      as (Hc & _ & _ & _ & Hhost).
    destruct (settled_Returned onUpdate onComplete onError file
                (stopInterval (refs p)) (host p) Hc) as (_ & Eh & _).
    rewrite Eh, Hhost, Es. reflexivity.
Qed.

End PollingMore.

(** The lemma at the hook over the registry, right after its mount. *)
Lemma response_after_cleanup_witness :
  let file := snapshot_J Status.processing 40 "1970-01-03T00:00:00.000Z" in
  let p := mount "J" true 7%nat (files uploaded_J) in
  map ProcessedFile.progress
      (host (step registryUpdate None None
               (step registryUpdate None None p Cleanup)
               (Settled (Returned file)))) = [40].
Proof.
  intros file p.
  assert (pending p <> 0%nat) as Hp by discriminate.
  destruct (response_after_cleanup registryUpdate None None p file
              (updateFiles parseDate_ex file (files uploaded_J))
              Hp eq_refl eq_refl)
    as (_ & _ & _ & H).
  rewrite H. reflexivity.
Defined.

(** The theorem at a hook that is switched off. *)
Lemma disabled_hook_is_inert_witness :
  let p := mount "J" false 7%nat (files uploaded_J) in
  run registryUpdate None None
      [Tick; Settled (Thrown "Network Error"); Tick; Cleanup] p = p
  /\ attempts p = 0%nat.
Proof.
  intro p.
  destruct (disabled_hook_is_inert registryUpdate None None "J" false 7%nat
              (files uploaded_J)
              [Tick; Settled (Thrown "Network Error"); Tick; Cleanup]
              (or_introl eq_refl)) as (H & Ha & _).
  split; [exact H | exact Ha].
Defined.

(** With no [onError] the [catch] block ends normally. *)
Lemma settled_without_onError {Host : Type}
    (onUpdate : @Callback Host FileStatus.t)
    (onComplete : option (@Callback Host FileStatus.t)) fetched ps h :
  completion_of (pollFileStatus_settled onUpdate onComplete None fetched ps h)
  = Returned tt.
Proof.
  assert (forall e ps0 h0,
            @catch_block Host None e ps0 h0
            = (if (maxRetries <=? S (retryCount ps0))%nat
               then stopInterval (setRetryCount (S (retryCount ps0)) ps0)
               else setRetryCount (S (retryCount ps0)) ps0,
               h0, Returned tt)) as Hcatch.
  { intros e ps0 h0. unfold catch_block. cbn [retryCount setRetryCount].
    now destruct (maxRetries <=? S (retryCount ps0))%nat. }
  unfold pollFileStatus_settled. destruct fetched as [file|e].
  - destruct (try_block onUpdate onComplete file ps h) as [[ps1 h1] [[]|e]];
      [reflexivity|].
    now rewrite Hcatch.
  - now rewrite Hcatch.
Qed.

(** X25: a hook that is given no [onError] never lets an error escape:
    whatever the requests and the other callbacks do, every run of
    [pollFileStatus] ends normally, the [catch] block having swallowed the
    failure. *)
Theorem no_onError_no_rejection {Host : Type}
    (onUpdate : @Callback Host FileStatus.t)
    (onComplete : option (@Callback Host FileStatus.t))
    fileId enabled timer (h : Host) evs :
  unhandled (run onUpdate onComplete None evs (mount fileId enabled timer h))
  = [].
Proof.
  assert (unhandled (mount fileId enabled timer h) = []) as H0.
  { unfold mount.
    now destruct (negb enabled || String.eqb fileId EmptyString). }
  revert H0. generalize (mount fileId enabled timer h).
  induction evs as [|ev evs IH]; intros p Hp; [assumption|].
  change (run onUpdate onComplete None (ev :: evs) p)
    with (run onUpdate onComplete None evs
            (step onUpdate onComplete None p ev)).
  apply IH. destruct ev as [|fetched|]; cbn.
  - destruct (intervalRef (refs p)); [|assumption].
    unfold pollFileStatus_begin. now destruct (isPollingRef (refs p)).
  - unfold pollFileStatus_resume. destruct (pending p); [assumption|].
    pose proof (settled_without_onError onUpdate onComplete fetched
                  (refs p) (host p)) as Hc.
    destruct (pollFileStatus_settled onUpdate onComplete None fetched
                (refs p) (host p)) as [[ps h'] c].
    cbn in *. now rewrite Hc.
  - assumption.
Qed.

(** ** The expiry display *)

(** X26: the stored-files page and the sweep agree on what is expired: the
    page shows a job as [expired] exactly when a sweep at the same time
    would treat it as expired.  For a job that is not expired the page
    shows [critical] while less than 7 hours are left, [warning] from 7
    hours up to less than 25 hours, and [normal] from 25 hours on.  A job
    whose expiry is an invalid date is shown as [normal] and is never
    expired for the sweep. *)
Theorem expiryStatus_spec now (f : ProcessedFile.t) :
  (getExpiryStatus now (ProcessedFile.expiryDate f) = expired
   <-> isExpired now f = true)
  /\ (forall e, ProcessedFile.expiryDate f = Some e ->
        (getExpiryStatus now (Some e) = critical
         <-> 0 < e - now < 7 * 3600000)
        /\ (getExpiryStatus now (Some e) = warning
            <-> 7 * 3600000 <= e - now < 25 * 3600000)
        /\ (getExpiryStatus now (Some e) = normal
            <-> 25 * 3600000 <= e - now))
  /\ (ProcessedFile.expiryDate f = None ->
        getExpiryStatus now (ProcessedFile.expiryDate f) = normal
        /\ isExpired now f = false).
Proof.
  assert (forall e,
            getExpiryStatus now (Some e) =
            if e - now <=? 0 then expired
            else if e - now <? 7 * 3600000 then critical
            else if e - now <? 25 * 3600000 then warning
            else normal) as Hcases.
  { intro e. unfold getExpiryStatus, msLeftOf.
    change (1000 * 60 * 60) with 3600000.
    destruct (e - now <=? 0) eqn:E0; [reflexivity|].
    apply Z.leb_gt in E0.
    destruct ((e - now) / 3600000 <=? 6) eqn:E6;
      destruct (e - now <? 7 * 3600000) eqn:E7;
      try reflexivity.
    - apply Z.leb_le in E6. apply Z.ltb_ge in E7.
      exfalso. Z.to_euclidean_division_equations. lia.
    - apply Z.leb_gt in E6. apply Z.ltb_lt in E7.
      exfalso. Z.to_euclidean_division_equations. lia.
    - destruct ((e - now) / 3600000 <=? 24) eqn:E24;
        destruct (e - now <? 25 * 3600000) eqn:E25; try reflexivity.
      + apply Z.leb_le in E24. apply Z.ltb_ge in E25.
        exfalso. Z.to_euclidean_division_equations. lia.
      + apply Z.leb_gt in E24. apply Z.ltb_lt in E25.
        exfalso. Z.to_euclidean_division_equations. lia. }
  split; [|split].
  - unfold isExpired. destruct (ProcessedFile.expiryDate f) as [e|].
    + rewrite Hcases. cbn [date_ge].
      destruct (e - now <=? 0) eqn:E0.
      * apply Z.leb_le in E0. split; [intros _|reflexivity].
        apply Z.leb_le. lia.
      * apply Z.leb_gt in E0. split.
        -- destruct (e - now <? 7 * 3600000), (e - now <? 25 * 3600000);
             discriminate.
        -- intro H. apply Z.leb_le in H. lia.
    + cbn. split; discriminate.
  - intros e _. rewrite Hcases.
    destruct (Z.leb_spec (e - now) 0),
             (Z.ltb_spec (e - now) (7 * 3600000)),
             (Z.ltb_spec (e - now) (25 * 3600000));
      (split; [|split]); split; intros; try discriminate; try lia;
      try reflexivity.
  - intro E. unfold isExpired. rewrite E. split; reflexivity.
Qed.

(** What [getTimeRemaining] prints, before it is printed. *)
Inductive Remaining :=
| RExpired
| RDays (daysLeft hours : Z)
| RHours (hoursLeft minutesLeft : Z)
| RMinutes (minutesLeft : Z)
| RNaN.

Definition remainingOf (now : Z) (expiryDate : Date) : Remaining :=
  match msLeftOf now expiryDate with
  | None => RNaN
  | Some msLeft =>
      if msLeft <=? 0 then RExpired
      else
        let hoursLeft := msLeft / (1000 * 60 * 60) in
        let daysLeft := hoursLeft / 24 in
        let minutesLeft :=
          Z.rem msLeft (1000 * 60 * 60) / (1000 * 60) in
        if 0 <? daysLeft then RDays daysLeft (Z.rem hoursLeft 24)
        else if 0 <? hoursLeft then RHours hoursLeft minutesLeft
        else RMinutes minutesLeft
  end.

Definition showRemaining (r : Remaining) : string :=
  match r with
  | RExpired => "Expired"
  | RDays d h => (showZ d ++ "d " ++ showZ h ++ "h remaining")%string
  | RHours h m => (showZ h ++ "h " ++ showZ m ++ "m remaining")%string
  | RMinutes m => (showZ m ++ "m remaining")%string
  | RNaN => "NaNm remaining"
  end.

(** X27: [getTimeRemaining] rounds the time left down.  It prints
    [Expired] exactly when no time is left; days and hours (at least one
    day, hours below 24) when a day or more is left, exact to the hour;
    hours and minutes (hours from 1 to 23, minutes below 60) when less than
    a day is left, exact to the minute; and minutes alone, 0 to 59, in the
    last hour, so [0m remaining] during the last minute.  For an invalid
    expiry date it prints [NaNm remaining]. *)
Theorem timeRemaining_spec now e :
  getTimeRemaining now (Some e) = showRemaining (remainingOf now (Some e))
  /\ getTimeRemaining now None = "NaNm remaining"
  /\ match remainingOf now (Some e) with
     | RExpired => e - now <= 0
     | RDays d h =>
         1 <= d /\ 0 <= h < 24
         /\ (d * 24 + h) * 3600000 <= e - now < (d * 24 + h + 1) * 3600000
     | RHours h m =>
         1 <= h < 24 /\ 0 <= m < 60
         /\ (h * 60 + m) * 60000 <= e - now < (h * 60 + m + 1) * 60000
     | RMinutes m =>
         0 <= m < 60 /\ 0 < e - now
         /\ m * 60000 <= e - now < (m + 1) * 60000
     | RNaN => False
     end.
Proof.
  split; [|split; [reflexivity|]].
  - unfold getTimeRemaining, remainingOf, msLeftOf.
    destruct (e - now <=? 0); [reflexivity|]. cbv zeta.
    destruct (0 <? (e - now) / (1000 * 60 * 60) / 24); [reflexivity|].
    destruct (0 <? (e - now) / (1000 * 60 * 60)); reflexivity.
  - unfold remainingOf, msLeftOf.
    change (1000 * 60 * 60) with 3600000. change (1000 * 60) with 60000.
    destruct (e - now <=? 0) eqn:E0; [now apply Z.leb_le in E0|].
    apply Z.leb_gt in E0. cbv zeta.
    destruct (0 <? (e - now) / 3600000 / 24) eqn:Ed;
      [apply Z.ltb_lt in Ed | apply Z.ltb_ge in Ed].
    + Z.to_euclidean_division_equations. lia.
    + destruct (0 <? (e - now) / 3600000) eqn:Eh;
        [apply Z.ltb_lt in Eh | apply Z.ltb_ge in Eh];
        Z.to_euclidean_division_equations; lia.
Qed.

(** ** Logout, selection and the way back *)

Lemma pollingEffect_inFlight rt :
  inFlight (pollingEffect rt) = inFlight rt ++ processingFileIds (app rt)
  /\ app (pollingEffect rt) = app rt.
Proof.
  unfold pollingEffect. generalize (processingFileIds (app rt)).
  intro ids. revert rt. induction ids as [|id ids IH]; intro rt; simpl.
  - now rewrite app_nil_r.
  - destruct (IH (pollFile_begin id rt)) as [H1 H2]. rewrite H1, H2.
    cbn. now rewrite <- app_assoc.
Qed.

(** X28: a logout removes the token, so that the next authentication check
    fails, empties the list of jobs, clears the bound job and shows the
    upload view.  It does not touch the polled set: the polling effect
    still issues one request for every job that was being polled, and
    whatever those polls return, the list stays empty. *)
Theorem logout_spec sh :
  let st' := appState (handleLogout sh) in
  isAuthenticated (checkAuth (handleLogout sh)) = false
  /\ files st' = []
  /\ currentFileId st' = None
  /\ currentFile st' = None
  /\ currentView st' = upload
  /\ processingFileIds st' = processingFileIds (appState sh)
  /\ inFlight (pollingEffect {| app := st'; inFlight := [] |})
     = processingFileIds (appState sh)
  /\ (forall parseDate c v apiFile,
        files (pollFile_resolved parseDate c v apiFile st') = []).
Proof.
  cbv zeta. repeat split.
  - destruct (pollingEffect_inFlight
                {| app := appState (handleLogout sh); inFlight := [] |})
      as [H _].
    rewrite H. reflexivity.
  - intros parseDate c v apiFile. rewrite pollFile_resolved_files.
    reflexivity.
Qed.

(** X29: selecting a tracked job on a page other than the editor opens the
    editor on that job, and the editor's back button returns to the page
    the job was selected on; the job stays bound, the history is reset, and
    [processingFileId] is cleared when it was this job. *)
Theorem select_then_back fileId st :
  currentView st <> editor ->
  (exists f, In f (files st) /\ ProcessedFile.id f = fileId) ->
  let st1 := onSelectFile fileId st in
  let st2 := editor_onBack st1 in
  currentView st1 = editor
  /\ previousView st1 = currentView st
  /\ (exists f, currentFile st1 = Some f /\ ProcessedFile.id f = fileId)
  /\ currentView st2 = currentView st
  /\ previousView st2 = upload
  /\ currentFileId st2 = Some fileId
  /\ files st2 = files st
  /\ processingFileId st2 =
       (if is_id (processingFileId st) fileId then None
        else processingFileId st).
Proof.
  intros Hne [f [Hin Hid]] st1 st2.
  assert (AppView_eqb (currentView st) editor = false) as Ev.
  { destruct (AppView_eqb (currentView st) editor) eqn:E; [|reflexivity].
    apply AppView_eqb_eq in E. contradiction. }
  assert (st1 = setCurrentView editor
                  (setPreviousView (currentView st)
                     (setCurrentFileId (Some fileId) st))) as E1.
  { subst st1. unfold onSelectFile, navigateTo. cbn. now rewrite Ev. }
  assert (exists g, currentFile st1 = Some g /\ ProcessedFile.id g = fileId)
    as [g [Hg Hgid]].
  { rewrite E1. unfold currentFile. cbn.
    destruct (find (fun f0 => String.eqb fileId (ProcessedFile.id f0))
                   (files st)) as [g|] eqn:Ef.
    - exists g. split; [reflexivity|].
      apply find_some in Ef as [_ Ef]. apply String.eqb_eq in Ef. congruence.
    - exfalso. apply (find_none _ _ Ef) in Hin. cbn in Hin.
      rewrite Hid, String.eqb_refl in Hin. discriminate. }
  assert (st2 = goBack (if is_id (processingFileId st) fileId
                        then setProcessingFileId None st1 else st1)) as E2.
  { subst st2. unfold editor_onBack. rewrite Hg, Hgid. rewrite E1. cbn.
    reflexivity. }
  clearbody st1 st2. subst st1.
  split; [reflexivity|]. split; [reflexivity|].
  split; [now exists g|].
  rewrite E2. unfold goBack.
  destruct (is_id (processingFileId st) fileId); cbn;
    rewrite Ev; cbn; repeat split.
Qed.

(** The theorem at the job [J], selected on the stored-files page. *)
Lemma select_then_back_witness :
  let st := onViewStored uploaded_J in
  let st2 := editor_onBack (onSelectFile "J" st) in
  currentView (onSelectFile "J" st) = editor
  /\ currentView st2 = stored
  /\ currentFileId st2 = Some "J".
Proof.
  intros st st2.
  assert (currentView st <> editor) as Hne by discriminate.
  assert (exists f, In f (files st) /\ ProcessedFile.id f = "J") as Hex
    by (exists job_J; split; [now left | reflexivity]).
  destruct (select_then_back "J" st Hne Hex)
    as (H1 & _ & _ & H2 & _ & H3 & _).
  split; [exact H1|]. split; [exact H2 | exact H3].
Defined.
